(** * Version discovery of the registry-image resource: [commands/check.go]

    A shallow embedding of the [check] command and the properties of its
    decision logic.  The Go packages the command imports are embedded as
    modules of the same name that hold the part of each package the command
    touches.  Every call that leaves the process (registry requests, the ECR
    token exchange, log lines, the JSON written to stdout) and every call
    into the reference parser is recorded in a trace, so that statements
    such as "the origin is never queried" are statements about that trace. *)

From Stdlib Require Import Ascii String List ZArith Bool Lia.
Import ListNotations.
Open Scope string_scope.

(** ** Go errors *)

(** [transport.Error] of go-containerregistry: the structured error of a
    registry response.  [message] stands for what its [Error] method
    renders. *)
Module transport.
Record Error := { StatusCode : Z; message : string }.
End transport.

(** A value of Go's [error] interface, by dynamic type: a [*transport.Error],
    a plain error carrying its text, or the wrapper that [fmt.Errorf] builds
    for the [%w] verb (its text, and the error it wraps). *)
Inductive error : Type :=
| TransportError (e : transport.Error)
| errorString (s : string)
| wrapError (msg : string) (err : error).

(** The [Error] method. *)
Definition error_Error (err : error) : string :=
  match err with
  | TransportError e => transport.message e
  | errorString s => s
  | wrapError msg _ => msg
  end.

(** [fmt.Errorf(prefix + "%s", err)]. *)
Definition Errorf_s (prefix : string) (err : error) : error :=
  errorString (prefix ++ error_Error err).

(** [fmt.Errorf(prefix + "%w", err)]. *)
Definition Errorf_w (prefix : string) (err : error) : error :=
  wrapError (prefix ++ error_Error err) err.

Module http.
Definition StatusNotFound : Z := 404.
End http.

(** ** go-containerregistry: [v1], [authn], [name], [remote] *)

Module v1.
Record Hash := { Algorithm : string; Hex : string }.

(** The zero value [v1.Hash{}]. *)
Definition Hash_zero : Hash := {| Algorithm := ""; Hex := "" |}.

Definition Hash_String (h : Hash) : string := Algorithm h ++ ":" ++ Hex h.

Record Platform := { Architecture : string; OS : string }.

(** Of a descriptor the command reads the digest only. *)
Record Descriptor := { Digest : Hash }.
End v1.

Module authn.
Record Basic := { Username : string; Password : string }.
End authn.

Module name.
Definition DefaultRegistry : string := "index.docker.io".

Inductive Option : Type := WeakValidation | StrictValidation.

Record Registry := { registry : string; insecure : bool }.

(** A [Repository] embeds its [Registry]. *)
Record Repository := { Repository_Registry : Registry; repository : string }.

Record Tag := { Tag_Repository : Repository; tag : string }.

Record Digest := { Digest_Repository : Repository; digest : string }.

(** The [Reference] interface has the two implementations above. *)
Inductive Reference : Type :=
| TagRef (t : Tag)
| DigestRef (d : Digest).

Definition Registry_RegistryStr (r : Registry) : string := registry r.

Definition Registry_String (r : Registry) : string := Registry_RegistryStr r.

Definition defaultNamespace : string := "library".

Fixpoint containsSlash (s : string) : bool :=
  match s with
  | EmptyString => false
  | String c rest => Ascii.eqb c "/"%char || containsSlash rest
  end.

(** [hasImplicitNamespace]: a repository without a slash on the default
    registry stands for the one of that name under [library]. *)
Definition hasImplicitNamespace (repo : string) (reg : Registry) : bool :=
  negb (containsSlash repo)
  && String.eqb (Registry_RegistryStr reg) DefaultRegistry.

(** [path.Join(defaultNamespace, repo)] for a [repo] without a slash, the
    only case [RepositoryStr] calls it in: an empty element is left out
    and the result is cleaned, so that [.] adds nothing and [..] takes
    [library] away. *)
Definition joinDefaultNamespace (repo : string) : string :=
  if String.eqb repo "" then defaultNamespace
  else if String.eqb repo "." then defaultNamespace
  else if String.eqb repo ".." then "."
  else defaultNamespace ++ "/" ++ repo.

Definition Repository_RepositoryStr (r : Repository) : string :=
  if hasImplicitNamespace (repository r) (Repository_Registry r)
  then joinDefaultNamespace (repository r)
  else repository r.

(** [Repository.String], that is [Repository.Name]. *)
Definition Repository_String (r : Repository) : string :=
  let regName := Registry_String (Repository_Registry r) in
  if String.eqb regName "" then Repository_RepositoryStr r
  else regName ++ "/" ++ Repository_RepositoryStr r.

Definition Repository_Tag (r : Repository) (identifier : string) : Tag :=
  {| Tag_Repository := r; tag := identifier |}.

Definition Repository_Digest (r : Repository) (identifier : string) : Digest :=
  {| Digest_Repository := r; digest := identifier |}.

Definition Reference_Repository (ref : Reference) : Repository :=
  match ref with
  | TagRef t => Tag_Repository t
  | DigestRef d => Digest_Repository d
  end.

(** The zero value that [new(name.Tag)] points to. *)
Definition Tag_zero : Tag :=
  {| Tag_Repository :=
       {| Repository_Registry := {| registry := ""; insecure := false |};
          repository := "" |};
     tag := "" |}.
End name.

Module remote.
Inductive Option : Type :=
| WithPlatform (p : v1.Platform)
| WithAuth (auth : authn.Basic).
End remote.

(** ** The [resource] package *)

Module resource.
(** Modelled from the spec: the type declarations of package [resource]
    are not part of [commands/check.go].  Static credentials are a
    username and a password, both possibly empty. *)
Record BasicCredentials := { Username : string; Password : string }.

(** Modelled from the spec: the declaration of [RegistryMirror] is missing;
    a mirror descriptor is a host with credentials of its own. *)
Record RegistryMirror :=
  { Host : string; Mirror_BasicCredentials : BasicCredentials }.

(** Modelled from the spec: the declaration of [Source] is missing; a
    Source has a repository string, an optional tag selector, optional
    static credentials, an optional mirror descriptor, and the access key
    id, secret key and region of the cloud provider. *)
Record Source :=
  { Repository : string;
    RawTag : string;
    Source_BasicCredentials : BasicCredentials;
    Source_RegistryMirror : option RegistryMirror;
    AwsAccessKeyId : string;
    AwsSecretAccessKey : string;
    AwsRegion : string }.

(** Modelled from the spec: the declaration of [Version] is missing; a
    Version is a content digest string. *)
Record Version := { Digest : string }.

(** Modelled from the spec: the method [Source.Tag] is not part of
    [commands/check.go]; the tag selector "defaults to latest". *)
Definition Source_Tag (s : Source) : string :=
  if String.eqb (RawTag s) "" then "latest" else RawTag s.
End resource.

(** ** Package [commands] *)

Module commands.

Record CheckRequest :=
  { Source : resource.Source; Version : option resource.Version }.

Definition CheckResponse : Type := list resource.Version.

(** One entry per call the command makes to a collaborator, in the order
    the calls are made. *)
Inductive Event : Type :=
| AuthenticateToECR_call (src : resource.Source)
| NewRepository_call (s : string) (opts : list name.Option)
| NewRegistry_call (s : string) (opts : list name.Option)
| Head_call (ref : name.Reference) (opts : list remote.Option)
| Get_call (ref : name.Reference) (opts : list remote.Option)
| Warnf_call (msg : string)
| Encode_call (response : CheckResponse).

(** The collaborators of the command.  [Net] is the state of everything
    outside the process: what the registries hold, what the token exchange
    answers, whether stdout accepts the response.  A Go function returning
    [(T, error)] is given the result type [T + error].
    [AuthenticateToECR] is a method of [*Source]: it answers and may rewrite
    the Source it is called on. *)
Record Env (Net : Type) :=
  { GOARCH : string;
    GOOS : string;
    json_Decode : string -> CheckRequest + error;
    AuthenticateToECR : resource.Source -> Net -> bool * resource.Source * Net;
    name_NewRepository : string -> list name.Option -> name.Repository + error;
    name_NewRegistry : string -> list name.Option -> name.Registry + error;
    remote_Head :
      name.Reference -> list remote.Option -> Net -> (v1.Descriptor + error) * Net;
    remote_Get :
      name.Reference -> list remote.Option -> Net -> (v1.Descriptor + error) * Net;
    json_Encode : CheckResponse -> Net -> option error * Net }.

Arguments GOARCH {Net} _.
Arguments GOOS {Net} _.
Arguments json_Decode {Net} _ _.
Arguments AuthenticateToECR {Net} _ _ _.
Arguments name_NewRepository {Net} _ _ _.
Arguments name_NewRegistry {Net} _ _ _.
Arguments remote_Head {Net} _ _ _ _.
Arguments remote_Get {Net} _ _ _ _.
Arguments json_Encode {Net} _ _ _.

(** The outside world together with the calls made so far. *)
Record World (Net : Type) := { net : Net; trace : list Event }.

Arguments net {Net} _.
Arguments trace {Net} _.

(** A computation of the command: a state transformer on the world. *)
Definition M (Net A : Type) : Type := World Net -> A * World Net.

Definition ret {Net A : Type} (a : A) : M Net A := fun w => (a, w).

Definition bind {Net A B : Type} (c : M Net A) (k : A -> M Net B) : M Net B :=
  fun w => let (a, w') := c w in k a w'.

Declare Scope go_scope.
Delimit Scope go_scope with go.
Notation "x <- c ;; k" := (bind c (fun x => k))
  (at level 61, c at next level, right associativity) : go_scope.
Notation "' pat <- c ;; k" := (bind c (fun x => match x with pat => k end))
  (at level 61, pat pattern, c at next level, right associativity) : go_scope.
Notation "c ;;; k" := (bind c (fun _ => k))
  (at level 61, right associativity) : go_scope.

(** Record a call. *)
Definition emit {Net : Type} (e : Event) : M Net unit :=
  fun w => (tt, {| net := net w; trace := (trace w ++ [e])%list |}).

(** Record a call and let the outside world answer it. *)
Definition call {Net A : Type} (e : Event) (f : Net -> A * Net) : M Net A :=
  fun w => let (a, n) := f (net w) in
           (a, {| net := n; trace := (trace w ++ [e])%list |}).

(** Record a call to a function that does not touch the outside world. *)
Definition pure_call {Net A : Type} (e : Event) (a : A) : M Net A :=
  fun w => (a, {| net := net w; trace := (trace w ++ [e])%list |}).

Definition nonEmpty (s : string) : bool := negb (String.eqb s "").

Section Command.
Context {Net : Type} (env : Env Net).
Local Open Scope go_scope.

(** [checkMissingManifest], lines 178-184: the type assertion succeeds on
    a [*transport.Error] only; it does not look through a wrapper. *)
Definition checkMissingManifest (err : error) : bool :=
  match err with
  | TransportError rErr => Z.eqb (transport.StatusCode rErr) http.StatusNotFound
  | _ => false
  end.

(** [headOrGet], lines 156-176.  The result is Go's triple
    [(v1.Hash, bool, error)], [None] being the nil error. *)
Definition headOrGet (ref : name.Reference) (imageOpts : list remote.Option)
  : M Net (v1.Hash * bool * option error) :=
  r <- call (Head_call ref imageOpts) (remote_Head env ref imageOpts) ;;
  match r with
  | inr err =>
      if checkMissingManifest err then ret (v1.Hash_zero, false, None)
      else
        r' <- call (Get_call ref imageOpts) (remote_Get env ref imageOpts) ;;
        match r' with
        | inr err' =>
            if checkMissingManifest err' then ret (v1.Hash_zero, false, None)
            else ret (v1.Hash_zero, false, Some err')
        | inl remoteDesc => ret (v1.Digest remoteDesc, true, None)
        end
  | inl v1Desc => ret (v1.Digest v1Desc, true, None)
  end.

(** The options [performCheck] builds at lines 112-126: the platform of
    the host always, the credentials only when neither part is empty. *)
Definition imageOptsOf (principal : resource.BasicCredentials)
  : list remote.Option :=
  let auth := {| authn.Username := resource.Username principal;
                 authn.Password := resource.Password principal |} in
  let imageOpts : list remote.Option := [] in
  let imageOpts :=
    (imageOpts ++ [remote.WithPlatform {| v1.Architecture := GOARCH env;
                                          v1.OS := GOOS env |}])%list in
  if nonEmpty (authn.Username auth) && nonEmpty (authn.Password auth)
  then (imageOpts ++ [remote.WithAuth auth])%list
  else imageOpts.

(** [performCheck], lines 111-154.  The [found] and [err] that the second
    [headOrGet] binds at line 137 are new variables of the inner block:
    line 147 reads the [found] of line 128. *)
Definition performCheck (principal : resource.BasicCredentials)
    (version : option resource.Version) (ref : name.Tag)
  : M Net (CheckResponse * option error) :=
  let imageOpts := imageOptsOf principal in
  '(digest, found, err) <- headOrGet (name.TagRef ref) imageOpts ;;
  match err with
  | Some err => ret ([], Some (Errorf_w "get remote image: " err))
  | None =>
      let response : CheckResponse := [] in
      r <- match version with
           | Some v =>
               if found
                  && negb (String.eqb (resource.Digest v) (v1.Hash_String digest))
               then
                 let digestRef :=
                   name.Repository_Digest (name.Tag_Repository ref)
                                          (resource.Digest v) in
                 '(_, found', err') <-
                   headOrGet (name.DigestRef digestRef) imageOpts ;;
                 match err' with
                 | Some err' =>
                     ret (inr (Errorf_w "get remote image: " err'))
                 | None =>
                     ret (inl (if found' : bool then (response ++ [v])%list
                               else response))
                 end
               else ret (inl response)
           | None => ret (inl response)
           end ;;
      match r with
      | inr e => ret ([], Some e)
      | inl response =>
          ret (if found : bool
               then (response
                       ++ [{| resource.Digest := v1.Hash_String digest |}])%list
               else response,
               None)
      end
  end.

(** The condition of line 58: the Source carries the whole triple. *)
Definition hasAwsTriple (src : resource.Source) : bool :=
  nonEmpty (resource.AwsAccessKeyId src)
  && nonEmpty (resource.AwsSecretAccessKey src)
  && nonEmpty (resource.AwsRegion src).

(** [Execute], lines 50-67: decode the request, exchange the cloud
    credentials when the triple is there, parse the repository.  (Line 48,
    [setupLogging], configures the logger and calls no collaborator of the
    check.)  The result
    is the error [Execute] returns at once, or the Source (as the exchange
    left it), the previous version and the parsed repository with which it
    goes on to line 69. *)
Definition Execute_prelude (stdin : string)
  : M Net (resource.Source * option resource.Version * name.Repository + error) :=
  match json_Decode env stdin with
  | inr err => ret (inr (Errorf_s "invalid payload: " err))
  | inl req =>
      a <- (if hasAwsTriple (Source req)
            then
              '(ok, src) <- call (AuthenticateToECR_call (Source req))
                                 (AuthenticateToECR env (Source req)) ;;
              ret (if ok : bool then inl src
                   else inr (errorString "cannot authenticate with ECR"))
            else ret (inl (Source req))) ;;
      match a with
      | inr e => ret (inr e)
      | inl src =>
          r <- pure_call
                 (NewRepository_call (resource.Repository src) [name.WeakValidation])
                 (name_NewRepository env (resource.Repository src)
                                     [name.WeakValidation]) ;;
          match r with
          | inr err => ret (inr (Errorf_s "failed to resolve repository: " err))
          | inl repo => ret (inl (src, Version req, repo))
          end
      end
  end.

(** [Execute], lines 103-108: write the response to stdout. *)
Definition Execute_encode (response : CheckResponse) : M Net (option error) :=
  e <- call (Encode_call response) (json_Encode env response) ;;
  match e with
  | Some err => ret (Some (Errorf_s "could not marshal JSON: " err))
  | None => ret None
  end.

(** [Execute], lines 75-92: the body of the mirror block.  It declares an
    [err] of its own at line 75, and it is that variable the mirror's
    [performCheck] assigns at line 87: of the block only [response] and
    [tag] reach line 95, unless the block returns an error. *)
Definition Execute_mirror (src : resource.Source)
    (version : option resource.Version) (repo : name.Repository)
    (registryMirror : resource.RegistryMirror)
  : M Net (CheckResponse * name.Tag + error) :=
  r <- pure_call (NewRepository_call (name.Repository_String repo) [])
                 (name_NewRepository env (name.Repository_String repo) []) ;;
  match r with
  | inr err => ret (inr (Errorf_s "could not resolve mirror repository: " err))
  | inl mirror =>
      r' <- pure_call
              (NewRegistry_call (resource.Host registryMirror) [name.WeakValidation])
              (name_NewRegistry env (resource.Host registryMirror)
                                [name.WeakValidation]) ;;
      match r' with
      | inr err => ret (inr (Errorf_s "could not resolve registry: " err))
      | inl reg =>
          let mirror := {| name.Repository_Registry := reg;
                           name.repository := name.repository mirror |} in
          let tag := name.Repository_Tag mirror (resource.Source_Tag src) in
          '(response, err) <-
            performCheck (resource.Mirror_BasicCredentials registryMirror)
                         version tag ;;
          match err with
          | Some err =>
              emit (Warnf_call
                      ("checking mirror "
                         ++ name.Registry_RegistryStr (name.Repository_Registry mirror)
                         ++ " failed: " ++ error_Error err))
          | None =>
              if Nat.eqb (length response) 0
              then emit (Warnf_call
                           ("checking mirror "
                              ++ name.Registry_RegistryStr
                                   (name.Repository_Registry mirror)
                              ++ " failed: tag not found"))
              else ret tt
          end ;;;
          ret (inl (response, tag))
      end
  end.

(** [Execute], lines 95-108, entered with the [response] and the [tag] the
    mirror block left.  The [err] read at line 99 is the one of line 64,
    nil unless line 97 assigns it. *)
Definition Execute_origin (src : resource.Source)
    (version : option resource.Version) (repo : name.Repository)
    (response : CheckResponse) (tag : name.Tag)
  : M Net (option error) :=
  '(response, tag, err) <-
    (if Nat.eqb (length response) 0
     then
       let tag := name.Repository_Tag repo (resource.Source_Tag src) in
       '(response, err) <-
         performCheck (resource.Source_BasicCredentials src) version tag ;;
       ret (response, tag, err)
     else ret (response, tag, None)) ;;
  match err with
  | Some err =>
      ret (Some (errorString
                   ("checking origin "
                      ++ name.Registry_RegistryStr
                           (name.Repository_Registry (name.Tag_Repository tag))
                      ++ " failed: " ++ error_Error err)))
  | None => Execute_encode response
  end.

(** [Execute], lines 69-109: the mirror block under the condition of line
    74, then the origin. *)
Definition Execute_resolve (src : resource.Source)
    (version : option resource.Version) (repo : name.Repository)
  : M Net (option error) :=
  let response : CheckResponse := [] in
  let tag := name.Tag_zero in
  m <- match resource.Source_RegistryMirror src with
       | Some registryMirror =>
           if String.eqb (name.Registry_String (name.Repository_Registry repo))
                         name.DefaultRegistry
           then Execute_mirror src version repo registryMirror
           else ret (inl (response, tag))
       | None => ret (inl (response, tag))
       end ;;
  match m with
  | inr e => ret (Some e)
  | inl (response, tag) => Execute_origin src version repo response tag
  end.

(** [Execute], lines 47-109. *)
Definition Execute (stdin : string) : M Net (option error) :=
  p <- Execute_prelude stdin ;;
  match p with
  | inr e => ret (Some e)
  | inl (src, version, repo) => Execute_resolve src version repo
  end.

End Command.

(** ** Reading a trace *)

(** The world [w] after the calls [l] that do not touch the outside. *)
Definition logged {Net : Type} (w : World Net) (l : list Event) : World Net :=
  {| net := net w; trace := (trace w ++ l)%list |}.

(** The credentials a request carries: those of its [WithAuth] option (the
    last one wins), and the empty pair, anonymous access, when it has
    none. *)
Fixpoint authContext (opts : list remote.Option) : authn.Basic :=
  match opts with
  | [] => {| authn.Username := ""; authn.Password := "" |}
  | remote.WithAuth auth :: rest =>
      if existsb (fun o => match o with remote.WithAuth _ => true | _ => false end)
                 rest
      then authContext rest else auth
  | _ :: rest => authContext rest
  end.

(** The options of a registry request, [None] for the other calls. *)
Definition requestOpts (e : Event) : option (list remote.Option) :=
  match e with
  | Head_call _ opts | Get_call _ opts => Some opts
  | _ => None
  end.

(** The reference of a registry request. *)
Definition requestRef (e : Event) : option name.Reference :=
  match e with
  | Head_call ref _ | Get_call ref _ => Some ref
  | _ => None
  end.

(** A call into the reference parser. *)
Definition isParserCall (e : Event) : bool :=
  match e with
  | NewRepository_call _ _ | NewRegistry_call _ _ => true
  | _ => false
  end.

Definition isAuthenticateToECR (e : Event) : bool :=
  match e with
  | AuthenticateToECR_call _ => true
  | _ => false
  end.

(** Every call the computation [c] adds to the trace satisfies [P]. *)
Definition emits {Net A : Type} (c : M Net A) (P : Event -> Prop) : Prop :=
  forall w, exists l,
    trace (snd (c w)) = (trace w ++ l)%list /\ Forall P l.

(** The credentials that get past the guard of line 124: the pair when
    neither part is empty, none otherwise. *)
Definition attachedCredentials (principal : resource.BasicCredentials)
  : authn.Basic :=
  if nonEmpty (resource.Username principal) && nonEmpty (resource.Password principal)
  then {| authn.Username := resource.Username principal;
          authn.Password := resource.Password principal |}
  else {| authn.Username := ""; authn.Password := "" |}.

(** The mirror is eligible: one is configured and the registry of the
    origin repository is the default one. *)
Definition mirrorEligible (src : resource.Source) (repo : name.Repository)
  : Prop :=
  resource.Source_RegistryMirror src <> None
  /\ name.Registry_String (name.Repository_Registry repo) = name.DefaultRegistry.

(** From line 69 on the reference parser is called at lines 75 and 80 only,
    the first statements of the mirror block, to build the mirror
    reference: the calls made from line 69 on hold a parser call when the
    mirror was attempted, and only then. *)
Definition mirrorAttempted (l : list Event) : bool := existsb isParserCall l.

Definition tokenExchangeAttempted (l : list Event) : bool :=
  existsb isAuthenticateToECR l.

(** What a call made from line 69 on can be: no token exchange; parser
    calls and warnings for an eligible mirror only; requests for the origin
    repository with the options of the Source's credentials, or, for an
    eligible mirror, with the options of the mirror's credentials. *)
Definition resolveEvent {Net : Type} (env : Env Net) (src : resource.Source)
    (repo : name.Repository) (e : Event) : Prop :=
  match e with
  | AuthenticateToECR_call _ => False
  | NewRepository_call _ _ | NewRegistry_call _ _ | Warnf_call _ =>
      mirrorEligible src repo
  | Head_call ref opts | Get_call ref opts =>
      (opts = imageOptsOf env (resource.Source_BasicCredentials src)
       /\ name.Reference_Repository ref = repo)
      \/ (mirrorEligible src repo
          /\ exists m, resource.Source_RegistryMirror src = Some m
                       /\ opts = imageOptsOf env (resource.Mirror_BasicCredentials m))
  | Encode_call _ => True
  end.

(** A request of the mirror attempt: it is for a reference under the
    registry parsed from the host of the Source's mirror descriptor, and
    it is built from the pair of that descriptor, which it carries when
    neither part is empty. *)
Definition mirrorRequest {Net : Type} (env : Env Net) (src : resource.Source)
    (e : Event) : Prop :=
  forall ref opts,
    requestRef e = Some ref -> requestOpts e = Some opts ->
    exists m reg,
      resource.Source_RegistryMirror src = Some m
      /\ name_NewRegistry env (resource.Host m) [name.WeakValidation] = inl reg
      /\ name.Repository_Registry (name.Reference_Repository ref) = reg
      /\ opts = imageOptsOf env (resource.Mirror_BasicCredentials m)
      /\ authContext opts
         = attachedCredentials (resource.Mirror_BasicCredentials m).

(** A request of the origin attempt: it is for a reference in the
    repository parsed from the Source's repository string, and it is built
    from the Source's own pair, which it carries when neither part is
    empty. *)
Definition originRequest {Net : Type} (env : Env Net) (src : resource.Source)
    (e : Event) : Prop :=
  forall ref opts,
    requestRef e = Some ref -> requestOpts e = Some opts ->
    name_NewRepository env (resource.Repository src) [name.WeakValidation]
    = inl (name.Reference_Repository ref)
    /\ opts = imageOptsOf env (resource.Source_BasicCredentials src)
    /\ authContext opts
       = attachedCredentials (resource.Source_BasicCredentials src).

(** ** The two sentences of the specification that the code departs from *)

(** "A not-found condition on HEAD must trigger a GET fallback before being
    treated as authoritative not-found": whenever HEAD on [ref] answers
    with a not-found error, [headOrGet] has sent a GET for [ref]. *)
Definition head_not_found_triggers_get {Net : Type} (env : Env Net)
    (w : World Net) (ref : name.Reference) (opts : list remote.Option) : Prop :=
  forall err n,
    remote_Head env ref opts (net w) = (inr err, n) ->
    checkMissingManifest err = true ->
    In (Get_call ref opts) (trace (snd (headOrGet env ref opts w))).

(** "Static basic credentials (possibly both empty) from the Source are
    used as-is": for a Source without the whole triple and without a
    mirror, the credentials every registry request of the check carries
    are the username and password of the Source. *)
Definition static_credentials_used_as_is {Net : Type} (env : Env Net)
    (stdin : string) (w : World Net) : Prop :=
  forall req,
    json_Decode env stdin = inl req ->
    hasAwsTriple (Source req) = false ->
    resource.Source_RegistryMirror (Source req) = None ->
    Forall (fun e =>
              forall opts,
                requestOpts e = Some opts ->
                authContext opts
                = {| authn.Username :=
                       resource.Username
                         (resource.Source_BasicCredentials (Source req));
                     authn.Password :=
                       resource.Password
                         (resource.Source_BasicCredentials (Source req)) |})
           (trace (snd (Execute env stdin w))).

(** ** A scripted outside world, for examples

    The registries answer the requests from a script, one entry per
    request, whatever the reference; past the end of the script the
    connection fails.  The token exchange answers [ecr_ok] and installs the
    credentials [AWS]/[token]; stdout accepts every response; the request
    read from stdin is [req]. *)

Definition Script : Type := list (v1.Descriptor + error).

Definition scripted (_ : name.Reference) (_ : list remote.Option) (n : Script)
  : (v1.Descriptor + error) * Script :=
  match n with
  | r :: rest => (r, rest)
  | [] => (inr (errorString "connection refused"), [])
  end.

(** The first path component and the rest, when there is a slash. *)
Fixpoint splitSlash (s : string) : option (string * string) :=
  match s with
  | EmptyString => None
  | String c rest =>
      if Ascii.eqb c "/"%char then Some (EmptyString, rest)
      else match splitSlash rest with
           | Some (a, b) => Some (String c a, b)
           | None => None
           end
  end.

Fixpoint hasDotOrColon (s : string) : bool :=
  match s with
  | EmptyString => false
  | String c rest =>
      Ascii.eqb c "."%char || Ascii.eqb c ":"%char || hasDotOrColon rest
  end.

(** A registry name is refused when it holds a space; the empty name is
    the default registry. *)
Definition example_NewRegistry (s : string) (opts : list name.Option)
  : name.Registry + error :=
  if existsb (fun c => Ascii.eqb c " "%char) (list_ascii_of_string s)
  then inr (errorString
              ("registries must be valid RFC 3986 URI authorities: " ++ s))
  else inl {| name.registry := if String.eqb s "" then name.DefaultRegistry else s;
              name.insecure := false |}.

(** The first component names the registry when it holds a dot or a colon;
    otherwise the registry is the default one.  The repository part has
    between 2 and 255 characters. *)
Definition example_NewRepository (s : string) (opts : list name.Option)
  : name.Repository + error :=
  if String.eqb s "" then inr (errorString "a repository name must be specified")
  else
    let '(reg, repo) :=
      match splitSlash s with
      | Some (a, b) => if hasDotOrColon a then (a, b) else (EmptyString, s)
      | None => (EmptyString, s)
      end in
    if Nat.ltb (String.length repo) 2 || Nat.ltb 255 (String.length repo)
    then inr (errorString
                ("repository must be between 2 and 255 characters in length: "
                   ++ repo))
    else
      match example_NewRegistry reg opts with
      | inr e => inr e
      | inl r => inl {| name.Repository_Registry := r; name.repository := repo |}
      end.

Definition exampleEnv (req : CheckRequest) (ecr_ok : bool) : Env Script :=
  {| GOARCH := "amd64";
     GOOS := "linux";
     json_Decode := fun _ => inl req;
     AuthenticateToECR := fun src n =>
       (ecr_ok,
        {| resource.Repository := resource.Repository src;
           resource.RawTag := resource.RawTag src;
           resource.Source_BasicCredentials :=
             {| resource.Username := "AWS"; resource.Password := "token" |};
           resource.Source_RegistryMirror := resource.Source_RegistryMirror src;
           resource.AwsAccessKeyId := resource.AwsAccessKeyId src;
           resource.AwsSecretAccessKey := resource.AwsSecretAccessKey src;
           resource.AwsRegion := resource.AwsRegion src |},
        n);
     name_NewRepository := example_NewRepository;
     name_NewRegistry := example_NewRegistry;
     remote_Head := scripted;
     remote_Get := scripted;
     json_Encode := fun _ n => (None, n) |}.

Definition anonymous : resource.BasicCredentials :=
  {| resource.Username := ""; resource.Password := "" |}.

Definition exampleSource (repository : string)
    (mirror : option resource.RegistryMirror) (aws : string) : resource.Source :=
  {| resource.Repository := repository;
     resource.RawTag := "";
     resource.Source_BasicCredentials := anonymous;
     resource.Source_RegistryMirror := mirror;
     resource.AwsAccessKeyId := aws;
     resource.AwsSecretAccessKey := aws;
     resource.AwsRegion := aws |}.

Definition exampleMirror : resource.RegistryMirror :=
  {| resource.Host := "mirror.example.com";
     resource.Mirror_BasicCredentials :=
       {| resource.Username := "m"; resource.Password := "secret" |} |}.

Definition sha (hex : string) : v1.Hash :=
  {| v1.Algorithm := "sha256"; v1.Hex := hex |}.

Definition answers (hex : string) : v1.Descriptor + error :=
  inl {| v1.Digest := sha hex |}.

Definition fails (code : Z) : v1.Descriptor + error :=
  inr (TransportError {| transport.StatusCode := code;
                         transport.message := "registry error" |}).

Definition start (script : Script) : World Script :=
  {| net := script; trace := [] |}.

Definition busybox : name.Repository :=
  {| name.Repository_Registry :=
       {| name.registry := name.DefaultRegistry; name.insecure := false |};
     name.repository := "busybox" |}.

Definition latest (r : name.Repository) : name.Tag := name.Repository_Tag r "latest".

Definition firstRun (src : resource.Source) : CheckRequest :=
  {| Source := src; Version := None |}.

Definition exampleOpts : list remote.Option :=
  [remote.WithPlatform {| v1.Architecture := "amd64"; v1.OS := "linux" |}].

(** The world of the simplest examples: Docker Hub's [busybox], no mirror,
    no cloud credentials, first run. *)
Definition hub : Env Script :=
  exampleEnv (firstRun (exampleSource "busybox" None "")) true.

(** The same repository behind a mirror. *)
Definition mirrored : Env Script :=
  exampleEnv (firstRun (exampleSource "busybox" (Some exampleMirror) "")) true.

(** The same repository with cloud credentials whose exchange fails. *)
Definition hubAwsDenied : Env Script :=
  exampleEnv (firstRun (exampleSource "busybox" None "AKIA")) false.

Definition mirrorRepository : name.Repository :=
  {| name.Repository_Registry :=
       {| name.registry := "mirror.example.com"; name.insecure := false |};
     name.repository := "library/busybox" |}.

(** [busybox] with its namespace written out, as line 75 parses it. *)
Definition libraryBusybox : name.Repository :=
  {| name.Repository_Registry :=
       {| name.registry := name.DefaultRegistry; name.insecure := false |};
     name.repository := "library/busybox" |}.

Definition mirrorOpts : list remote.Option :=
  (exampleOpts ++ [remote.WithAuth {| authn.Username := "m";
                                      authn.Password := "secret" |}])%list.

(** The same repository with a username and no password. *)
Definition userOnlySource : resource.Source :=
  {| resource.Repository := "busybox";
     resource.RawTag := "";
     resource.Source_BasicCredentials :=
       {| resource.Username := "user"; resource.Password := "" |};
     resource.Source_RegistryMirror := None;
     resource.AwsAccessKeyId := "";
     resource.AwsSecretAccessKey := "";
     resource.AwsRegion := "" |}.

Definition hubUserOnly : Env Script := exampleEnv (firstRun userOnlySource) true.

Definition previous : resource.Version := {| resource.Digest := "sha256:bbbb" |}.

(** ** Counting requests, and the place of the written response *)

Definition isRequest (e : Event) : bool :=
  match e with
  | Head_call _ _ | Get_call _ _ => true
  | _ => false
  end.

Definition countRequests (l : list Event) : nat := length (filter isRequest l).

(** The computation [c] sends at most [n] registry requests. *)
Definition requestsAtMost {Net A : Type} (c : M Net A) (n : nat) : Prop :=
  forall w, exists l,
    trace (snd (c w)) = (trace w ++ l)%list /\ countRequests l <= n.

Definition isEncode (e : Event) : bool :=
  match e with
  | Encode_call _ => true
  | _ => false
  end.

(** Of the calls [l] of a run that ended with [result]: either no response
    was written and the run failed, or a response was written once, by the
    last call. *)
Definition writtenLast (result : option error) (l : list Event) : Prop :=
  (Forall (fun e => isEncode e = false) l /\ result <> None)
  \/ (exists l' response,
        l = (l' ++ [Encode_call response])%list
        /\ Forall (fun e => isEncode e = false) l').

Definition writesLast {Net : Type} (c : M Net (option error)) : Prop :=
  forall w, exists l,
    trace (snd (c w)) = (trace w ++ l)%list /\ writtenLast (fst (c w)) l.

(** The options start with the platform of the host. *)
Definition carriesPlatform {Net : Type} (env : Env Net)
    (opts : list remote.Option) : Prop :=
  exists rest,
    opts = remote.WithPlatform {| v1.Architecture := GOARCH env;
                                  v1.OS := GOOS env |} :: rest.

(** ** More scripted worlds *)

(** Stdin does not hold a request. *)
Definition brokenPayload : Env Script :=
  {| GOARCH := "amd64";
     GOOS := "linux";
     json_Decode := fun _ => inr (errorString "unexpected EOF");
     AuthenticateToECR := fun src n => (true, src, n);
     name_NewRepository := example_NewRepository;
     name_NewRegistry := example_NewRegistry;
     remote_Head := scripted;
     remote_Get := scripted;
     json_Encode := fun _ n => (None, n) |}.

(** The Source names no repository. *)
Definition noRepository : Env Script :=
  exampleEnv (firstRun (exampleSource "" None "")) true.

(** The host of the mirror is not a registry name. *)
Definition badMirrorHost : resource.RegistryMirror :=
  {| resource.Host := "bad host";
     resource.Mirror_BasicCredentials := anonymous |}.

Definition mirroredBadHost : Env Script :=
  exampleEnv (firstRun (exampleSource "busybox" (Some badMirrorHost) "")) true.

(** The Source names the repository [..] behind the mirror. *)
Definition dotDot : name.Repository :=
  {| name.Repository_Registry :=
       {| name.registry := name.DefaultRegistry; name.insecure := false |};
     name.repository := ".." |}.

Definition mirroredDotDot : Env Script :=
  exampleEnv (firstRun (exampleSource ".." (Some exampleMirror) "")) true.



(** Behind the mirror, with a previous version. *)
Definition mirroredSecondRun : Env Script :=
  exampleEnv {| Source := exampleSource "busybox" (Some exampleMirror) "";
                Version := Some previous |} true.

Definition serverError : error :=
  TransportError {| transport.StatusCode := 500;
                    transport.message := "registry error" |}.

(** ** The manifest resolver: [checkMissingManifest] and [headOrGet] *)

Section ManifestResolver.
Context {Net : Type} (env : Env Net).

(** C10.  An error is classified as not-found exactly when it is a
    transport error whose status code is 404; a transport error with
    another status code, a plain error and a wrapped error (whatever it
    wraps) are not. *)
Theorem checkMissingManifest_iff (err : error) :
  checkMissingManifest err = true
  <-> exists rErr, err = TransportError rErr /\ transport.StatusCode rErr = 404%Z.
Proof.
  split.
  - destruct err as [rErr | s | msg inner]; simpl; try discriminate.
    intro H. exists rErr. split; [reflexivity | ].
    apply Z.eqb_eq in H. exact H.
  - intros [rErr [-> H]]. simpl. rewrite H. reflexivity.
Qed.

Lemma headOrGet_head_found (w : World Net) ref opts desc n :
  remote_Head env ref opts (net w) = (inl desc, n) ->
  headOrGet env ref opts w
  = ((v1.Digest desc, true, None),
     {| net := n; trace := (trace w ++ [Head_call ref opts])%list |}).
Proof.
  intro H. unfold headOrGet, bind, call. rewrite H. reflexivity.
Qed.

Lemma headOrGet_head_missing (w : World Net) ref opts err n :
  remote_Head env ref opts (net w) = (inr err, n) ->
  checkMissingManifest err = true ->
  headOrGet env ref opts w
  = ((v1.Hash_zero, false, None),
     {| net := n; trace := (trace w ++ [Head_call ref opts])%list |}).
Proof.
  intros H Hm. unfold headOrGet, bind, call. rewrite H, Hm. reflexivity.
Qed.

Lemma headOrGet_get (w : World Net) ref opts err n :
  remote_Head env ref opts (net w) = (inr err, n) ->
  checkMissingManifest err = false ->
  headOrGet env ref opts w
  = (match fst (remote_Get env ref opts n) with
     | inl remoteDesc => (v1.Digest remoteDesc, true, None)
     | inr err' =>
         if checkMissingManifest err' then (v1.Hash_zero, false, None)
         else (v1.Hash_zero, false, Some err')
     end,
     {| net := snd (remote_Get env ref opts n);
        trace := (trace w ++ [Head_call ref opts; Get_call ref opts])%list |}).
Proof.
  intros H Hm. unfold headOrGet, bind, call. rewrite H, Hm. cbn.
  destruct (remote_Get env ref opts n) as [[remoteDesc | err'] n']; cbn;
    rewrite <- app_assoc; cbn; [reflexivity | ].
  destruct (checkMissingManifest err'); reflexivity.
Qed.

(** C1, as the code has it.  When HEAD fails with a not-found error the
    resolver answers found=false, err=nil from the HEAD response alone: the
    only request sent is the HEAD.  The GET fallback on the same reference
    is sent when HEAD fails with an error that is not a not-found. *)
Theorem headOrGet_head_error (w : World Net) ref opts err n :
  remote_Head env ref opts (net w) = (inr err, n) ->
  (checkMissingManifest err = true ->
   headOrGet env ref opts w
   = ((v1.Hash_zero, false, None),
      {| net := n; trace := (trace w ++ [Head_call ref opts])%list |}))
  /\ (checkMissingManifest err = false ->
      trace (snd (headOrGet env ref opts w))
      = (trace w ++ [Head_call ref opts; Get_call ref opts])%list).
Proof.
  intro H. split; intro Hm.
  - exact (headOrGet_head_missing w ref opts err n H Hm).
  - rewrite (headOrGet_get w ref opts err n H Hm). reflexivity.
Qed.

(** Every request [headOrGet] sends is for its reference, with its
    options. *)
Lemma headOrGet_trace (w : World Net) ref opts :
  exists l,
    trace (snd (headOrGet env ref opts w)) = (trace w ++ l)%list
    /\ Forall (fun e => requestRef e = Some ref /\ requestOpts e = Some opts) l.
Proof.
  destruct (remote_Head env ref opts (net w)) as [[desc | err] n] eqn:H.
  - rewrite (headOrGet_head_found w ref opts desc n H).
    eexists; split; [reflexivity | ]. repeat constructor.
  - destruct (checkMissingManifest err) eqn:Hm.
    + rewrite (headOrGet_head_missing w ref opts err n H Hm).
      eexists; split; [reflexivity | ]. repeat constructor.
    + rewrite (headOrGet_get w ref opts err n H Hm).
      eexists; split; [reflexivity | ]. repeat constructor.
Qed.

(** [headOrGet] reports an error only together with found=false. *)
Lemma headOrGet_error_not_found (w : World Net) ref opts d found e w' :
  headOrGet env ref opts w = ((d, found, Some e), w') -> found = false.
Proof.
  unfold headOrGet, bind, call, ret.
  destruct (remote_Head env ref opts (net w)) as [[desc | err] n];
    [intro H; inversion H | ].
  destruct (checkMissingManifest err); [intro H; inversion H | ].
  cbn. destruct (remote_Get env ref opts n) as [[desc | err'] n'];
    [intro H; inversion H | ].
  destruct (checkMissingManifest err'); intro H; inversion H; reflexivity.
Qed.

End ManifestResolver.

Lemma headOrGet_head_error_witness :
  remote_Head hub (name.TagRef (latest busybox)) exampleOpts
              (net (start [fails 404])) = (fails 404, [])
  /\ headOrGet hub (name.TagRef (latest busybox)) exampleOpts (start [fails 404])
     = ((v1.Hash_zero, false, None),
        {| net := [];
           trace := [Head_call (name.TagRef (latest busybox)) exampleOpts] |}).
Proof.
  split; [reflexivity | ].
  apply (headOrGet_head_error hub (start [fails 404])
           (name.TagRef (latest busybox)) exampleOpts _ [] eq_refl).
  reflexivity.
Defined.

(** C1, as the specification states it, fails: HEAD on [busybox:latest]
    answers 404 and no GET follows. *)
Lemma head_not_found_without_get :
  ~ head_not_found_triggers_get hub (start [fails 404])
      (name.TagRef (latest busybox)) exampleOpts.
Proof.
  intro H.
  specialize (H _ _ eq_refl eq_refl). cbn in H.
  destruct H as [H | []]. discriminate H.
Qed.

(** ** The check algorithm: [performCheck] *)

Section CheckAlgorithm.
Context {Net : Type} (env : Env Net).

Lemma emits_ret {A : Type} (a : A) (P : Event -> Prop) :
  emits (@ret Net A a) P.
Proof.
  intro w. exists []. split; [symmetry; apply app_nil_r | constructor].
Qed.

Lemma emits_bind {A B : Type} (c : M Net A) (k : A -> M Net B)
    (P : Event -> Prop) :
  emits c P -> (forall a, emits (k a) P) -> emits (bind c k) P.
Proof.
  intros Hc Hk w. unfold bind.
  destruct (Hc w) as [l1 [E1 F1]].
  destruct (c w) as [a w1]. cbn in E1.
  destruct (Hk a w1) as [l2 [E2 F2]].
  exists (l1 ++ l2)%list. split.
  - rewrite E2, E1. symmetry. apply app_assoc.
  - apply Forall_app. split; assumption.
Qed.

Lemma emits_call {A : Type} (e : Event) (f : Net -> A * Net)
    (P : Event -> Prop) :
  P e -> emits (call e f) P.
Proof.
  intros He w. exists [e]. unfold call.
  destruct (f (net w)) as [a n]. split; [reflexivity | repeat constructor; exact He].
Qed.

Lemma emits_pure_call {A : Type} (e : Event) (a : A) (P : Event -> Prop) :
  P e -> emits (@pure_call Net A e a) P.
Proof.
  intros He w. exists [e]. split; [reflexivity | repeat constructor; exact He].
Qed.

Lemma emits_emit (e : Event) (P : Event -> Prop) :
  P e -> emits (@emit Net e) P.
Proof.
  intros He w. exists [e]. split; [reflexivity | repeat constructor; exact He].
Qed.

Lemma emits_weaken {A : Type} (c : M Net A) (P Q : Event -> Prop) :
  (forall e, P e -> Q e) -> emits c P -> emits c Q.
Proof.
  intros HPQ Hc w. destruct (Hc w) as [l [E F]].
  exists l. split; [exact E | ].
  eapply Forall_impl; [exact HPQ | exact F].
Qed.

Lemma emits_headOrGet ref opts :
  emits (headOrGet env ref opts)
        (fun e => requestRef e = Some ref /\ requestOpts e = Some opts).
Proof.
  intro w. apply headOrGet_trace.
Qed.

(** Every call [performCheck] makes is a registry request with the options
    built from [principal], for a reference in the repository of [ref]. *)
Lemma emits_performCheck principal version ref :
  emits (performCheck env principal version ref)
        (fun e =>
           requestOpts e = Some (imageOptsOf env principal)
           /\ exists r, requestRef e = Some r
                        /\ name.Reference_Repository r = name.Tag_Repository ref).
Proof.
  unfold performCheck.
  apply emits_bind.
  - eapply emits_weaken; [ | apply emits_headOrGet].
    cbn. intros e [Hr Ho]. split; [exact Ho | ].
    eexists; split; [exact Hr | reflexivity].
  - intros [[digest found] [err | ]]; [apply emits_ret | ].
    apply emits_bind.
    + destruct version as [v | ]; [ | apply emits_ret].
      destruct (found && _); [ | apply emits_ret].
      apply emits_bind.
      * eapply emits_weaken; [ | apply emits_headOrGet].
        cbn. intros e [Hr Ho]. split; [exact Ho | ].
        eexists; split; [exact Hr | reflexivity].
      * intros [[d' found'] [err' | ]]; apply emits_ret.
    + intros [response | e]; apply emits_ret.
Qed.

(** [performCheck] reports an error only together with an empty
    response. *)
Lemma performCheck_error_empty principal version ref (w : World Net)
    response e w' :
  performCheck env principal version ref w = ((response, Some e), w') ->
  response = [].
Proof.
  unfold performCheck, bind, ret.
  destruct (headOrGet env _ _ w) as [[[digest found] [err | ]] w1];
    [intro H; inversion H; reflexivity | ].
  destruct version as [v | ].
  - destruct (found && _).
    + destruct (headOrGet env _ _ w1) as [[[d' found'] [err' | ]] w2];
        intro H; inversion H; reflexivity.
    + intro H; inversion H.
  - intro H; inversion H.
Qed.

(** C2.  The tag resolves to [D]; the previous version [v] has another
    digest; the digest reference built from [v] in the repository of the
    tag resolves too, in the world the first resolution left.  Then the
    response is [v] followed by the version of [D]. *)
Theorem performCheck_previous_and_current principal v ref (w w1 w2 : World Net)
    D d' :
  headOrGet env (name.TagRef ref) (imageOptsOf env principal) w
  = ((D, true, None), w1) ->
  resource.Digest v <> v1.Hash_String D ->
  headOrGet env
    (name.DigestRef (name.Repository_Digest (name.Tag_Repository ref)
                                            (resource.Digest v)))
    (imageOptsOf env principal) w1
  = ((d', true, None), w2) ->
  performCheck env principal (Some v) ref w
  = (([v; {| resource.Digest := v1.Hash_String D |}], None), w2).
Proof.
  intros Htag Hneq Hprev.
  apply String.eqb_neq in Hneq.
  unfold performCheck, bind, ret.
  rewrite Htag. cbn. rewrite Hneq. cbn. rewrite Hprev. reflexivity.
Qed.

(** C6.  The tag resolves to [D], and there is no previous version or its
    digest is [D].  Then the response is the version of [D] alone, and the
    world is the one the resolution of the tag left: no request was sent
    for the previous digest. *)
Theorem performCheck_current_only principal version ref (w w1 : World Net) D :
  headOrGet env (name.TagRef ref) (imageOptsOf env principal) w
  = ((D, true, None), w1) ->
  version = None
  \/ (exists v, version = Some v /\ resource.Digest v = v1.Hash_String D) ->
  performCheck env principal version ref w
  = (([{| resource.Digest := v1.Hash_String D |}], None), w1).
Proof.
  intros Htag Hv.
  unfold performCheck, bind, ret. rewrite Htag.
  destruct Hv as [-> | [v [-> Heq]]]; [reflexivity | ].
  apply String.eqb_eq in Heq. cbn. rewrite Heq. reflexivity.
Qed.

(** C7.  HEAD on the tag fails, and the registry reports not-found: on the
    HEAD itself, or on the GET that follows a HEAD failure of another
    kind.  Then the response is empty and the error is nil, whatever the
    previous version, and every request was for the tag. *)
Theorem performCheck_not_found principal version ref (w : World Net) err n :
  remote_Head env (name.TagRef ref) (imageOptsOf env principal) (net w)
  = (inr err, n) ->
  checkMissingManifest err = true
  \/ (exists err',
        fst (remote_Get env (name.TagRef ref) (imageOptsOf env principal) n)
        = inr err'
        /\ checkMissingManifest err' = true) ->
  fst (performCheck env principal version ref w) = ([], None)
  /\ exists l,
       trace (snd (performCheck env principal version ref w))
       = (trace w ++ l)%list
       /\ Forall (fun e => requestRef e = Some (name.TagRef ref)) l.
Proof.
  intros Hhead Hnf.
  assert (Hres : exists w1 l,
             headOrGet env (name.TagRef ref) (imageOptsOf env principal) w
             = ((v1.Hash_zero, false, None), w1)
             /\ trace w1 = (trace w ++ l)%list
             /\ Forall (fun e => requestRef e = Some (name.TagRef ref)) l).
  { destruct (checkMissingManifest err) eqn:Hm.
    - rewrite (headOrGet_head_missing env w _ _ err n Hhead Hm).
      eexists; eexists; split; [reflexivity | ].
      split; [reflexivity | repeat constructor].
    - destruct Hnf as [Hnf | [err' [Hget Hm']]]; [discriminate Hnf | ].
      rewrite (headOrGet_get env w _ _ err n Hhead Hm).
      rewrite Hget, Hm'.
      eexists; eexists; split; [reflexivity | ].
      split; [reflexivity | repeat constructor]. }
  destruct Hres as [w1 [l [Hres [Htr Hall]]]].
  unfold performCheck, bind, ret. rewrite Hres.
  destruct version as [v | ]; cbn; (split; [reflexivity | ]);
    exists l; (split; [exact Htr | exact Hall]).
Qed.

(** Requests carry the pair only when neither part of it is empty. *)
Lemma imageOptsOf_authContext principal :
  authContext (imageOptsOf env principal) = attachedCredentials principal.
Proof.
  unfold imageOptsOf, attachedCredentials. cbn.
  destruct (nonEmpty (resource.Username principal)
            && nonEmpty (resource.Password principal)); reflexivity.
Qed.

End CheckAlgorithm.

(** ** The check algorithm: [Execute] *)

Section Execute.
Context {Net : Type} (env : Env Net).

Ltac emits_any :=
  repeat first
    [ apply emits_ret
    | apply emits_emit; exact I
    | apply emits_call; exact I
    | apply emits_pure_call; exact I
    | (eapply emits_weaken; [ | apply emits_headOrGet ]); intros; exact I
    | (eapply emits_weaken; [ | apply emits_performCheck ]); intros; exact I
    | apply emits_bind; [ | intro ]
    | match goal with
      | |- emits (match ?x with _ => _ end) _ => destruct x
      end ].

Lemma bind_extends {A B : Type} (c : M Net A) (k : A -> M Net B)
    (P : Event -> Prop) (w : World Net) :
  (forall a, emits (k a) P) ->
  exists l, trace (snd (bind c k w)) = (trace (snd (c w)) ++ l)%list
            /\ Forall P l.
Proof.
  intro Hk. unfold bind. destruct (c w) as [a w1]. apply Hk.
Qed.

(** The first call of [headOrGet] is the HEAD. *)
Lemma headOrGet_first (w : World Net) ref opts :
  exists l, trace (snd (headOrGet env ref opts w))
            = (trace w ++ Head_call ref opts :: l)%list.
Proof.
  destruct (remote_Head env ref opts (net w)) as [[desc | err] n] eqn:H.
  - rewrite (headOrGet_head_found env w ref opts desc n H). eexists; reflexivity.
  - destruct (checkMissingManifest err) eqn:Hm.
    + rewrite (headOrGet_head_missing env w ref opts err n H Hm).
      eexists; reflexivity.
    + rewrite (headOrGet_get env w ref opts err n H Hm). eexists; reflexivity.
Qed.

(** The first call of [performCheck] is the HEAD for its tag. *)
Lemma performCheck_first principal version ref (w : World Net) :
  exists l, trace (snd (performCheck env principal version ref w))
            = (trace w
                 ++ Head_call (name.TagRef ref) (imageOptsOf env principal) :: l)%list.
Proof.
  unfold performCheck. cbv zeta.
  match goal with
  | |- context [bind ?c ?k] =>
      destruct (bind_extends c k (fun _ => True) w) as [l2 [E2 _]]
  end.
  { intro a. destruct a as [[digest found] err]. emits_any. }
  destruct (headOrGet_first w (name.TagRef ref) (imageOptsOf env principal))
    as [l1 E1].
  exists (l1 ++ l2)%list. eapply eq_trans; [exact E2 | ]. rewrite E1.
  rewrite <- app_assoc. reflexivity.
Qed.

Lemma emits_Execute_encode response (P : Event -> Prop) :
  P (Encode_call response) -> emits (Execute_encode env response) P.
Proof.
  intro H. unfold Execute_encode. apply emits_bind.
  - apply emits_call. exact H.
  - intros [e | ]; apply emits_ret.
Qed.

Lemma emits_Execute_origin src version repo response tag :
  emits (Execute_origin env src version repo response tag)
        (resolveEvent env src repo).
Proof.
  unfold Execute_origin. apply emits_bind.
  - destruct (Nat.eqb (length response) 0); [ | apply emits_ret].
    apply emits_bind.
    + eapply emits_weaken; [ | apply emits_performCheck].
      intros e [Ho [r [Hr Hrepo]]].
      destruct e; try discriminate Ho; cbn in *;
        injection Ho as ->; injection Hr as ->; left; split;
        [reflexivity | exact Hrepo | reflexivity | exact Hrepo].
    + intros [response' err]. apply emits_ret.
  - intros [[response' tag'] [err | ]]; [apply emits_ret | ].
    apply emits_Execute_encode. exact I.
Qed.

Lemma emits_Execute_mirror src version repo m :
  resource.Source_RegistryMirror src = Some m ->
  mirrorEligible src repo ->
  emits (Execute_mirror env src version repo m) (resolveEvent env src repo).
Proof.
  intros Hm Hel. unfold Execute_mirror.
  apply emits_bind; [apply emits_pure_call; exact Hel | ].
  intros [mirror | err]; [ | apply emits_ret].
  apply emits_bind; [apply emits_pure_call; exact Hel | ].
  intros [reg | err]; [ | apply emits_ret].
  cbv zeta. apply emits_bind.
  - eapply emits_weaken; [ | apply emits_performCheck].
    intros e [Ho [r [Hr Hrepo]]].
    destruct e; try discriminate Ho; cbn in *;
      injection Ho as ->; right; (split; [exact Hel | ]);
      exists m; split; [exact Hm | reflexivity | exact Hm | reflexivity].
  - intros [response err]. apply emits_bind; [ | intro; apply emits_ret].
    destruct err as [err | ]; [apply emits_emit; exact Hel | ].
    destruct (Nat.eqb (length response) 0);
      [apply emits_emit; exact Hel | apply emits_ret].
Qed.

Lemma emits_Execute_resolve src version repo :
  emits (Execute_resolve env src version repo) (resolveEvent env src repo).
Proof.
  unfold Execute_resolve. cbv zeta. apply emits_bind.
  - destruct (resource.Source_RegistryMirror src) as [m | ] eqn:Hm;
      [ | apply emits_ret].
    destruct (String.eqb _ _) eqn:Heq; [ | apply emits_ret].
    apply emits_Execute_mirror; [exact Hm | ].
    split; [rewrite Hm; discriminate | apply String.eqb_eq; exact Heq].
  - intros [[response tag] | e]; [apply emits_Execute_origin | apply emits_ret].
Qed.

(** The mirror block starts with the parser call of line 75. *)
Lemma Execute_mirror_first src version repo m (w : World Net) :
  exists l,
    trace (snd (Execute_mirror env src version repo m w))
    = (trace w ++ NewRepository_call (name.Repository_String repo) [] :: l)%list.
Proof.
  unfold Execute_mirror.
  match goal with
  | |- context [bind ?c ?k] =>
      destruct (bind_extends c k (fun _ => True) w) as [l [E _]]
  end.
  { intros [mirror | err]; [ | apply emits_ret].
    apply emits_bind; [apply emits_pure_call; exact I | ].
    intros [reg | err]; [ | apply emits_ret].
    cbv zeta. apply emits_bind.
    - eapply emits_weaken; [ | apply emits_performCheck]. intros; exact I.
    - intros [response err]. apply emits_bind; [ | intro; apply emits_ret].
      destruct err as [err | ]; [apply emits_emit; exact I | ].
      destruct (Nat.eqb (length response) 0);
        [apply emits_emit; exact I | apply emits_ret]. }
  exists l. eapply eq_trans; [exact E | ]. cbn.
  rewrite <- app_assoc. reflexivity.
Qed.

(** The mirror block once both parser calls have succeeded: the mirror's
    [performCheck] on the repository path of the origin under the mirror's
    registry, then a warning unless the response has an entry. *)
Lemma Execute_mirror_built src version repo m (w : World Net) mirror reg :
  name_NewRepository env (name.Repository_String repo) [] = inl mirror ->
  name_NewRegistry env (resource.Host m) [name.WeakValidation] = inl reg ->
  let mtag :=
    name.Repository_Tag {| name.Repository_Registry := reg;
                           name.repository := name.repository mirror |}
                        (resource.Source_Tag src) in
  let w1 :=
    logged w [NewRepository_call (name.Repository_String repo) [];
              NewRegistry_call (resource.Host m) [name.WeakValidation]] in
  Execute_mirror env src version repo m w
  = (let '((response, err), w2) :=
       performCheck env (resource.Mirror_BasicCredentials m) version mtag w1 in
     (inl (response, mtag),
      match err with
      | Some err =>
          logged w2 [Warnf_call ("checking mirror " ++ name.registry reg
                                   ++ " failed: " ++ error_Error err)]
      | None =>
          if Nat.eqb (length response) 0
          then logged w2 [Warnf_call ("checking mirror " ++ name.registry reg
                                        ++ " failed: tag not found")]
          else w2
      end)).
Proof.
  intros Hrepo Hreg mtag w1.
  unfold Execute_mirror, bind, pure_call. rewrite Hrepo. cbn.
  rewrite Hreg. cbn. rewrite <- app_assoc. cbn.
  fold mtag. unfold logged in w1. fold w1.
  destruct (performCheck env _ version mtag w1) as [[response err] w2].
  destruct err as [err | ]; [reflexivity | ].
  destruct (Nat.eqb (length response) 0); reflexivity.
Qed.

Lemma Execute_after_prelude stdin (w0 w1 : World Net) src version repo :
  Execute_prelude env stdin w0 = (inl (src, version, repo), w1) ->
  Execute env stdin w0 = Execute_resolve env src version repo w1.
Proof.
  intro H. unfold Execute, bind. rewrite H. reflexivity.
Qed.

Lemma Execute_mirror_built_first src version repo m (w : World Net) mirror reg :
  name_NewRepository env (name.Repository_String repo) [] = inl mirror ->
  name_NewRegistry env (resource.Host m) [name.WeakValidation] = inl reg ->
  exists l,
    trace (snd (Execute_mirror env src version repo m w))
    = (trace w
         ++ NewRepository_call (name.Repository_String repo) []
         :: NewRegistry_call (resource.Host m) [name.WeakValidation]
         :: Head_call
              (name.TagRef
                 (name.Repository_Tag
                    {| name.Repository_Registry := reg;
                       name.repository := name.repository mirror |}
                    (resource.Source_Tag src)))
              (imageOptsOf env (resource.Mirror_BasicCredentials m))
         :: l)%list.
Proof.
  intros Hrepo Hreg.
  rewrite (Execute_mirror_built src version repo m w mirror reg Hrepo Hreg).
  match goal with
  | |- context [performCheck env ?c version ?t ?w1] =>
      destruct (performCheck_first c version t w1) as [l E];
      destruct (performCheck env c version t w1) as [[response err] w2]
  end.
  cbn in E.
  destruct err as [err | ]; [ | destruct (Nat.eqb (length response) 0)];
    cbn; rewrite E; repeat rewrite <- app_assoc; cbn;
    eexists; reflexivity.
Qed.

(** What follows the mirror block extends the trace it left. *)
Lemma Execute_resolve_after_mirror src version repo m (w : World Net) :
  resource.Source_RegistryMirror src = Some m ->
  name.Registry_String (name.Repository_Registry repo) = name.DefaultRegistry ->
  exists l,
    trace (snd (Execute_resolve env src version repo w))
    = (trace (snd (Execute_mirror env src version repo m w)) ++ l)%list.
Proof.
  intros Hm Heq. apply String.eqb_eq in Heq.
  unfold Execute_resolve. cbv zeta. rewrite Hm, Heq.
  match goal with
  | |- context [bind ?c ?k] =>
      destruct (bind_extends c k (resolveEvent env src repo) w) as [l [E _]]
  end.
  { intros [[response tag] | e]; [apply emits_Execute_origin | apply emits_ret]. }
  exists l. exact E.
Qed.

Lemma mirrorEligible_inv src repo :
  mirrorEligible src repo ->
  exists m, resource.Source_RegistryMirror src = Some m
            /\ name.Registry_String (name.Repository_Registry repo)
               = name.DefaultRegistry.
Proof.
  intros [Hm Heq].
  destruct (resource.Source_RegistryMirror src) as [m | ];
    [exists m; split; [reflexivity | exact Heq] | contradiction].
Qed.

(** C3.  From line 69 on: the mirror is attempted exactly when it is
    eligible, that is when a mirror is configured and the registry of the
    origin repository is the default registry.  When it is not eligible,
    every registry request is for a reference in the origin repository and
    carries the options of the Source's own credentials.  When it is
    eligible and the mirror reference can be built, the first request is
    the HEAD for the tag under the mirror's registry, with the options of
    the mirror's credentials. *)
Theorem Execute_mirror_gate stdin (w0 w1 : World Net) src version repo :
  Execute_prelude env stdin w0 = (inl (src, version, repo), w1) ->
  exists l,
    trace (snd (Execute env stdin w0)) = (trace w1 ++ l)%list
    /\ (mirrorAttempted l = true <-> mirrorEligible src repo)
    /\ (~ mirrorEligible src repo ->
        Forall (fun e =>
                  forall ref opts,
                    requestRef e = Some ref -> requestOpts e = Some opts ->
                    name.Reference_Repository ref = repo
                    /\ opts = imageOptsOf env (resource.Source_BasicCredentials src))
               l)
    /\ (forall m mirror reg,
          resource.Source_RegistryMirror src = Some m ->
          mirrorEligible src repo ->
          name_NewRepository env (name.Repository_String repo) [] = inl mirror ->
          name_NewRegistry env (resource.Host m) [name.WeakValidation] = inl reg ->
          exists l',
            l = NewRepository_call (name.Repository_String repo) []
                :: NewRegistry_call (resource.Host m) [name.WeakValidation]
                :: Head_call
                     (name.TagRef
                        (name.Repository_Tag
                           {| name.Repository_Registry := reg;
                              name.repository := name.repository mirror |}
                           (resource.Source_Tag src)))
                     (imageOptsOf env (resource.Mirror_BasicCredentials m))
                :: l').
Proof.
  intro Hpre. rewrite (Execute_after_prelude stdin w0 w1 src version repo Hpre).
  destruct (emits_Execute_resolve src version repo w1) as [l [E F]].
  exists l. split; [exact E | ]. split; [ | split].
  - split.
    + intro Hatt. apply existsb_exists in Hatt. destruct Hatt as [e [Hin He]].
      rewrite Forall_forall in F. specialize (F e Hin).
      destruct e; try discriminate He; exact F.
    + intro Hel. destruct (mirrorEligible_inv src repo Hel) as [m [Hm Heq]].
      destruct (Execute_resolve_after_mirror src version repo m w1 Hm Heq)
        as [l2 E2].
      destruct (Execute_mirror_first src version repo m w1) as [l1 E1].
      rewrite E1, <- app_assoc in E2. rewrite E2 in E.
      apply app_inv_head in E. rewrite <- E. reflexivity.
  - intro Hnot. eapply Forall_impl; [ | exact F].
    intros e He ref opts Hr Ho.
    destruct e; try discriminate Hr; cbn in *;
      injection Hr as ->; injection Ho as ->;
      (destruct He as [[Ho Hrepo] | [Hel _]];
       [split; [exact Hrepo | exact Ho] | contradiction]).
  - intros m mirror reg Hm Hel Hrepo Hreg.
    destruct Hel as [_ Heq].
    destruct (Execute_resolve_after_mirror src version repo m w1 Hm Heq)
      as [l2 E2].
    destruct (Execute_mirror_built_first src version repo m w1 mirror reg
                Hrepo Hreg) as [l1 E1].
    rewrite E1, <- app_assoc in E2. rewrite E2 in E.
    apply app_inv_head in E. rewrite <- E. cbn. eexists; reflexivity.
Qed.

(** C4.  The mirror is eligible, its reference is built, and its
    [performCheck] reports an error or an empty response.  Then the
    failure is logged as a warning, with the mirror's registry and the
    error or [tag not found], and [Execute] is what the origin's
    [performCheck] makes it:
    called with the Source's own credentials on the tag of the origin
    repository, its error is the error of the check, under the name of the
    origin registry, and its response is the one written out. *)
Theorem Execute_mirror_failure_falls_through stdin (w0 w1 w2 : World Net)
    src version repo m mirror reg response err :
  Execute_prelude env stdin w0 = (inl (src, version, repo), w1) ->
  resource.Source_RegistryMirror src = Some m ->
  name.Registry_String (name.Repository_Registry repo) = name.DefaultRegistry ->
  name_NewRepository env (name.Repository_String repo) [] = inl mirror ->
  name_NewRegistry env (resource.Host m) [name.WeakValidation] = inl reg ->
  performCheck env (resource.Mirror_BasicCredentials m) version
    (name.Repository_Tag {| name.Repository_Registry := reg;
                            name.repository := name.repository mirror |}
                         (resource.Source_Tag src))
    (logged w1 [NewRepository_call (name.Repository_String repo) [];
                NewRegistry_call (resource.Host m) [name.WeakValidation]])
  = ((response, err), w2) ->
  err <> None \/ response = [] ->
  Execute env stdin w0
  = (let '((response', err'), w3) :=
       performCheck env (resource.Source_BasicCredentials src) version
         (name.Repository_Tag repo (resource.Source_Tag src))
         (logged w2
            [Warnf_call
               ("checking mirror " ++ name.registry reg ++ " failed: "
                  ++ match err with
                     | Some e => error_Error e
                     | None => "tag not found"
                     end)]) in
     match err' with
     | Some e =>
         (Some (errorString
                  ("checking origin "
                     ++ name.registry (name.Repository_Registry repo)
                     ++ " failed: " ++ error_Error e)),
          w3)
     | None => Execute_encode env response' w3
     end).
Proof.
  intros Hpre Hm Heq Hrepo Hreg Hperf Hfail.
  rewrite (Execute_after_prelude stdin w0 w1 src version repo Hpre).
  apply String.eqb_eq in Heq.
  unfold Execute_resolve. cbv zeta. rewrite Hm, Heq. unfold bind at 1.
  rewrite (Execute_mirror_built src version repo m w1 mirror reg Hrepo Hreg).
  cbv zeta. rewrite Hperf.
  assert (Hempty : response = []).
  { destruct err as [e | ].
    - exact (performCheck_error_empty env _ _ _ _ _ _ _ Hperf).
    - destruct Hfail as [Hfail | Hfail]; [contradiction | exact Hfail]. }
  subst response.
  destruct err as [e | ];
    unfold Execute_origin, bind; cbn;
    match goal with
    | |- context [performCheck env ?c version ?t ?w] =>
        destruct (performCheck env c version t w) as [[response' err'] w3]
    end;
    destruct err'; reflexivity.
Qed.

(** C5.  The mirror is eligible, its reference is built, and its
    [performCheck] succeeds with a response that has an entry.  Then the
    only call that follows is the one that writes that response out: no
    request goes to the origin, and [Execute] is what writing the mirror's
    response makes it. *)
Theorem Execute_mirror_success_skips_origin stdin (w0 w1 w2 : World Net)
    src version repo m mirror reg response :
  Execute_prelude env stdin w0 = (inl (src, version, repo), w1) ->
  resource.Source_RegistryMirror src = Some m ->
  name.Registry_String (name.Repository_Registry repo) = name.DefaultRegistry ->
  name_NewRepository env (name.Repository_String repo) [] = inl mirror ->
  name_NewRegistry env (resource.Host m) [name.WeakValidation] = inl reg ->
  performCheck env (resource.Mirror_BasicCredentials m) version
    (name.Repository_Tag {| name.Repository_Registry := reg;
                            name.repository := name.repository mirror |}
                         (resource.Source_Tag src))
    (logged w1 [NewRepository_call (name.Repository_String repo) [];
                NewRegistry_call (resource.Host m) [name.WeakValidation]])
  = ((response, None), w2) ->
  response <> [] ->
  Execute env stdin w0 = Execute_encode env response w2
  /\ trace (snd (Execute env stdin w0))
     = (trace w2 ++ [Encode_call response])%list.
Proof.
  intros Hpre Hm Heq Hrepo Hreg Hperf Hne.
  rewrite (Execute_after_prelude stdin w0 w1 src version repo Hpre).
  apply String.eqb_eq in Heq.
  assert (Hrun : Execute_resolve env src version repo w1
                 = Execute_encode env response w2).
  { unfold Execute_resolve. cbv zeta. rewrite Hm, Heq. unfold bind at 1.
    rewrite (Execute_mirror_built src version repo m w1 mirror reg Hrepo Hreg).
    cbv zeta. rewrite Hperf.
    destruct response as [ | v rest]; [contradiction | ].
    reflexivity. }
  split; [exact Hrun | ].
  rewrite Hrun. unfold Execute_encode, bind, call.
  destruct (json_Encode env response (net w2)) as [[e | ] n]; reflexivity.
Qed.

Lemma hasAwsTriple_true src :
  hasAwsTriple src = true
  <-> resource.AwsAccessKeyId src <> ""
      /\ resource.AwsSecretAccessKey src <> ""
      /\ resource.AwsRegion src <> "".
Proof.
  unfold hasAwsTriple, nonEmpty.
  rewrite !andb_true_iff, !negb_true_iff, !String.eqb_neq. tauto.
Qed.

(** What follows the prelude makes no token exchange. *)
Lemma Execute_resolve_no_exchange src version repo (w : World Net) :
  exists l,
    trace (snd (Execute_resolve env src version repo w)) = (trace w ++ l)%list
    /\ tokenExchangeAttempted l = false.
Proof.
  destruct (emits_Execute_resolve src version repo w) as [l [E F]].
  exists l. split; [exact E | ].
  destruct (tokenExchangeAttempted l) eqn:Hatt; [ | reflexivity].
  apply existsb_exists in Hatt. destruct Hatt as [e [Hin He]].
  rewrite Forall_forall in F. specialize (F e Hin).
  destruct e; try discriminate He. contradiction.
Qed.

(** C8.  The token exchange is attempted exactly when the access key id,
    the secret key and the region are all non-empty; and when it is
    attempted and fails, [Execute] returns the authentication error at
    once: the exchange is the only call made. *)
Theorem Execute_token_exchange stdin (w : World Net) req :
  json_Decode env stdin = inl req ->
  (exists l,
     trace (snd (Execute env stdin w)) = (trace w ++ l)%list
     /\ (tokenExchangeAttempted l = true
         <-> resource.AwsAccessKeyId (Source req) <> ""
             /\ resource.AwsSecretAccessKey (Source req) <> ""
             /\ resource.AwsRegion (Source req) <> ""))
  /\ (forall src' n',
        resource.AwsAccessKeyId (Source req) <> ""
        /\ resource.AwsSecretAccessKey (Source req) <> ""
        /\ resource.AwsRegion (Source req) <> "" ->
        AuthenticateToECR env (Source req) (net w) = (false, src', n') ->
        Execute env stdin w
        = (Some (errorString "cannot authenticate with ECR"),
           {| net := n';
              trace := (trace w ++ [AuthenticateToECR_call (Source req)])%list |})).
Proof.
  intro Hdec. split.
  - assert (H : exists l,
               trace (snd (Execute env stdin w)) = (trace w ++ l)%list
               /\ (tokenExchangeAttempted l = true
                   <-> hasAwsTriple (Source req) = true)).
    { unfold Execute, Execute_prelude. rewrite Hdec.
      destruct (hasAwsTriple (Source req)) eqn:Htriple.
      + unfold bind, call, pure_call, ret.
        destruct (AuthenticateToECR env (Source req) (net w)) as [[ok src'] n'].
        destruct ok; cbn.
        * destruct (name_NewRepository env _ _) as [repo | err]; cbn.
          -- match goal with
             | |- context [Execute_resolve env ?s ?v ?r ?w'] =>
                 destruct (Execute_resolve_no_exchange s v r w') as [l [E _]]
             end.
             eexists; split;
               [rewrite E; cbn; rewrite <- !app_assoc; reflexivity | ].
             split; intro; reflexivity.
          -- rewrite <- app_assoc. eexists; split; [reflexivity | ].
             split; intro; reflexivity.
        * eexists; split; [reflexivity | ]. split; intro; reflexivity.
      + unfold bind, pure_call, ret. cbn.
        destruct (name_NewRepository env _ _) as [repo | err]; cbn.
        * match goal with
          | |- context [Execute_resolve env ?s ?v ?r ?w'] =>
              destruct (Execute_resolve_no_exchange s v r w') as [l [E Hno]]
          end.
          eexists; split;
            [rewrite E; cbn; rewrite <- !app_assoc; reflexivity | ].
          unfold tokenExchangeAttempted in Hno |- *. cbn. rewrite Hno.
          split; intro H; discriminate H.
        * eexists; split; [reflexivity | ]. cbn.
          split; intro H; discriminate H. }
    destruct H as [l [E H]]. exists l. split; [exact E | ].
    rewrite H. apply hasAwsTriple_true.
  - intros src' n' Htriple Hauth. apply hasAwsTriple_true in Htriple.
    unfold Execute, Execute_prelude. rewrite Hdec, Htriple.
    unfold bind, call. rewrite Hauth. reflexivity.
Qed.

Lemma emits_Execute_origin_pair src version repo response tag :
  emits (Execute_origin env src version repo response tag)
        (fun e =>
           forall ref opts,
             requestRef e = Some ref -> requestOpts e = Some opts ->
             name.Reference_Repository ref = repo
             /\ opts = imageOptsOf env (resource.Source_BasicCredentials src)).
Proof.
  unfold Execute_origin. apply emits_bind.
  - destruct (Nat.eqb (length response) 0); [ | apply emits_ret].
    apply emits_bind.
    + eapply emits_weaken; [ | apply emits_performCheck].
      intros e [Ho [r [Hr Hrepo]]] ref opts Hr' Ho'.
      rewrite Hr in Hr'. injection Hr' as <-.
      rewrite Ho in Ho'. injection Ho' as <-.
      split; [exact Hrepo | reflexivity].
    + intros [response' err]. apply emits_ret.
  - intros [[response' tag'] [err | ]]; [apply emits_ret | ].
    apply emits_Execute_encode. intros ref opts Hr. discriminate Hr.
Qed.

(** The requests of the mirror block are for references under the registry
    parsed from the mirror's host, with the options of the mirror's
    credentials. *)
Lemma Execute_mirror_pair src version repo m (w : World Net) :
  exists lm,
    trace (snd (Execute_mirror env src version repo m w)) = (trace w ++ lm)%list
    /\ Forall
         (fun e =>
            forall ref opts,
              requestRef e = Some ref -> requestOpts e = Some opts ->
              exists reg,
                name_NewRegistry env (resource.Host m) [name.WeakValidation]
                = inl reg
                /\ name.Repository_Registry (name.Reference_Repository ref) = reg
                /\ opts = imageOptsOf env (resource.Mirror_BasicCredentials m))
         lm.
Proof.
  destruct (name_NewRepository env (name.Repository_String repo) [])
    as [mirror | err] eqn:Hrepo.
  - destruct (name_NewRegistry env (resource.Host m) [name.WeakValidation])
      as [reg | err] eqn:Hreg.
    + rewrite (Execute_mirror_built src version repo m w mirror reg Hrepo Hreg).
      match goal with
      | |- context [performCheck env ?c version ?t ?w1] =>
          destruct (emits_performCheck env c version t w1) as [lp [Ep Fp]];
          destruct (performCheck env c version t w1) as [[response err] w2]
      end.
      cbn in Ep.
      assert (Fp' : Forall
                      (fun e =>
                         forall ref opts,
                           requestRef e = Some ref -> requestOpts e = Some opts ->
                           exists reg0,
                             @inl name.Registry error reg = inl reg0
                             /\ name.Repository_Registry
                                  (name.Reference_Repository ref) = reg0
                             /\ opts = imageOptsOf env
                                         (resource.Mirror_BasicCredentials m))
                      lp).
      { eapply Forall_impl; [ | exact Fp].
        intros e [Ho [r [Hr Hin]]] ref opts Hr' Ho'.
        rewrite Hr in Hr'. injection Hr' as <-.
        rewrite Ho in Ho'. injection Ho' as <-.
        exists reg. split; [reflexivity | ]. split; [ | reflexivity].
        rewrite Hin. reflexivity. }
      assert (Fq : forall msg, Forall
                      (fun e =>
                         forall ref opts,
                           requestRef e = Some ref -> requestOpts e = Some opts ->
                           exists reg0,
                             @inl name.Registry error reg = inl reg0
                             /\ name.Repository_Registry
                                  (name.Reference_Repository ref) = reg0
                             /\ opts = imageOptsOf env
                                         (resource.Mirror_BasicCredentials m))
                      [Warnf_call msg]).
      { intro msg. constructor; [ | constructor].
        intros ref opts Hr. discriminate Hr. }
      destruct err as [err | ]; [ | destruct (Nat.eqb (length response) 0)];
        cbn; rewrite Ep; repeat rewrite <- app_assoc; cbn;
        eexists; (split; [reflexivity | ]);
        (constructor; [intros ref opts Hr; discriminate Hr | ]);
        (constructor; [intros ref opts Hr; discriminate Hr | ]);
        try exact Fp';
        (apply Forall_app; split; [exact Fp' | apply Fq]).
    + unfold Execute_mirror, bind, pure_call, ret. rewrite Hrepo. cbn.
      rewrite Hreg. cbn. rewrite <- app_assoc. cbn.
      eexists; split; [reflexivity | ].
      constructor; [intros ref opts Hr; discriminate Hr | ].
      constructor; [intros ref opts Hr; discriminate Hr | constructor].
  - unfold Execute_mirror, bind, pure_call, ret. rewrite Hrepo. cbn.
    eexists; split; [reflexivity | ].
    constructor; [intros ref opts Hr; discriminate Hr | constructor].
Qed.

(** The calls made from line 69 on are those of the mirror attempt
    followed by those of the origin attempt. *)
Lemma Execute_resolve_segments src version repo (w : World Net) :
  exists lm lo,
    trace (snd (Execute_resolve env src version repo w))
    = (trace w ++ lm ++ lo)%list
    /\ Forall
         (fun e =>
            forall ref opts,
              requestRef e = Some ref -> requestOpts e = Some opts ->
              exists m reg,
                resource.Source_RegistryMirror src = Some m
                /\ name_NewRegistry env (resource.Host m) [name.WeakValidation]
                   = inl reg
                /\ name.Repository_Registry (name.Reference_Repository ref) = reg
                /\ opts = imageOptsOf env (resource.Mirror_BasicCredentials m))
         lm
    /\ Forall
         (fun e =>
            forall ref opts,
              requestRef e = Some ref -> requestOpts e = Some opts ->
              name.Reference_Repository ref = repo
              /\ opts = imageOptsOf env (resource.Source_BasicCredentials src))
         lo.
Proof.
  assert (Horigin : forall response tag w1,
             trace w1 = trace w ->
             exists lm lo,
               trace (snd (Execute_origin env src version repo response tag w1))
               = (trace w ++ lm ++ lo)%list
               /\ lm = []
               /\ Forall
                    (fun e =>
                       forall ref opts,
                         requestRef e = Some ref -> requestOpts e = Some opts ->
                         name.Reference_Repository ref = repo
                         /\ opts = imageOptsOf env
                                     (resource.Source_BasicCredentials src))
                    lo).
  { intros response tag w1 Hw.
    destruct (emits_Execute_origin_pair src version repo response tag w1)
      as [lo [Eo Fo]].
    exists [], lo. rewrite Eo, Hw. repeat split; assumption. }
  unfold Execute_resolve. cbv zeta.
  destruct (resource.Source_RegistryMirror src) as [m | ] eqn:Hm.
  - destruct (String.eqb _ _).
    + unfold bind at 1.
      destruct (Execute_mirror_pair src version repo m w) as [lm [Em Fm]].
      destruct (Execute_mirror env src version repo m w) as [a w1]. cbn in Em.
      assert (Fm' : Forall
                (fun e =>
                   forall ref opts,
                     requestRef e = Some ref -> requestOpts e = Some opts ->
                     exists m0 reg,
                       Some m = Some m0
                       /\ name_NewRegistry env (resource.Host m0)
                                           [name.WeakValidation] = inl reg
                       /\ name.Repository_Registry
                            (name.Reference_Repository ref) = reg
                       /\ opts = imageOptsOf env
                                   (resource.Mirror_BasicCredentials m0))
                lm).
      { eapply Forall_impl; [ | exact Fm].
        intros e He ref opts Hr Ho.
        destruct (He ref opts Hr Ho) as [reg [Hreg [Hin Hopts]]].
        exists m, reg. repeat split; assumption. }
      destruct a as [[response tag] | e].
      * destruct (emits_Execute_origin_pair src version repo response tag w1)
          as [lo [Eo Fo]].
        exists lm, lo. split; [ | split; assumption].
        rewrite Eo, Em. symmetry. apply app_assoc.
      * exists lm, []. split; [ | split; [exact Fm' | constructor]].
        cbn. rewrite Em, app_nil_r. reflexivity.
    + unfold bind at 1. unfold ret at 1.
      destruct (Horigin [] name.Tag_zero w eq_refl) as [lm [lo [E [-> Fo]]]].
      exists [], lo. split; [exact E | split; [constructor | exact Fo]].
  - unfold bind at 1. unfold ret at 1.
    destruct (Horigin [] name.Tag_zero w eq_refl) as [lm [lo [E [-> Fo]]]].
    exists [], lo. split; [exact E | split; [constructor | exact Fo]].
Qed.

(** C9, as the code has it.  For a Source without the whole triple, the
    calls of the check after the parsing of its repository are those of
    the mirror attempt followed by those of the origin attempt.  Every
    request of the mirror attempt goes to the registry of the mirror's
    host and is built from the pair of the mirror descriptor; every
    request of the origin attempt goes to the origin repository and is
    built from the Source's own pair.  Either way the request carries the
    pair when neither the username nor the password is empty, and no
    credentials otherwise. *)
Theorem Execute_static_credentials stdin (w : World Net) req :
  json_Decode env stdin = inl req ->
  hasAwsTriple (Source req) = false ->
  exists lm lo,
    trace (snd (Execute env stdin w))
    = (trace w
         ++ NewRepository_call (resource.Repository (Source req))
                               [name.WeakValidation]
         :: lm ++ lo)%list
    /\ Forall (mirrorRequest env (Source req)) lm
    /\ Forall (originRequest env (Source req)) lo.
Proof.
  intros Hdec Htriple.
  unfold Execute, Execute_prelude. rewrite Hdec, Htriple.
  unfold bind, pure_call, ret. cbn.
  destruct (name_NewRepository env _ _) as [repo | err] eqn:Hrepo; cbn.
  - match goal with
    | |- context [Execute_resolve env ?s ?v ?r ?w'] =>
        destruct (Execute_resolve_segments s v r w') as [lm [lo [E [Fm Fo]]]]
    end.
    exists lm, lo. split; [rewrite E; cbn; rewrite <- !app_assoc; reflexivity | ].
    split.
    + eapply Forall_impl; [ | exact Fm].
      intros e He ref opts Hr Ho.
      destruct (He ref opts Hr Ho) as [m [reg [Hm [Hreg [Hin Hopts]]]]].
      exists m, reg. repeat split; try assumption.
      rewrite Hopts. apply imageOptsOf_authContext.
    + eapply Forall_impl; [ | exact Fo].
      intros e He ref opts Hr Ho.
      destruct (He ref opts Hr Ho) as [Hin Hopts].
      rewrite Hin. repeat split; try assumption.
      rewrite Hopts. apply imageOptsOf_authContext.
  - exists [], []. split; [reflexivity | split; constructor].
Qed.

End Execute.

(** ** The theorems at work in the scripted world *)

(** The tag is at [sha256:aaaa], the previous version [sha256:bbbb] is
    still there. *)
Lemma performCheck_previous_and_current_witness :
  performCheck hub anonymous (Some previous) (latest busybox)
    (start [answers "aaaa"; answers "bbbb"])
  = (([previous; {| resource.Digest := "sha256:aaaa" |}], None),
     {| net := [];
        trace :=
          [Head_call (name.TagRef (latest busybox)) exampleOpts;
           Head_call (name.DigestRef (name.Repository_Digest busybox "sha256:bbbb"))
                     exampleOpts] |}).
Proof.
  apply (performCheck_previous_and_current hub anonymous previous
           (latest busybox) (start [answers "aaaa"; answers "bbbb"])
           {| net := [answers "bbbb"];
              trace := [Head_call (name.TagRef (latest busybox)) exampleOpts] |}
           _ (sha "aaaa") (sha "bbbb")).
  - reflexivity.
  - intro H. discriminate H.
  - reflexivity.
Defined.

(** First run: the tag is at [sha256:aaaa]. *)
Lemma performCheck_current_only_witness :
  performCheck hub anonymous None (latest busybox) (start [answers "aaaa"])
  = (([{| resource.Digest := "sha256:aaaa" |}], None),
     {| net := [];
        trace := [Head_call (name.TagRef (latest busybox)) exampleOpts] |}).
Proof.
  apply (performCheck_current_only hub anonymous None (latest busybox)
           (start [answers "aaaa"]) _ (sha "aaaa")).
  - reflexivity.
  - left. reflexivity.
Defined.

(** The tag was deleted: HEAD answers 500, the GET that follows 404. *)
Lemma performCheck_not_found_witness :
  fst (performCheck hub anonymous (Some previous) (latest busybox)
         (start [fails 500; fails 404]))
  = ([], None).
Proof.
  apply (performCheck_not_found hub anonymous (Some previous) (latest busybox)
           (start [fails 500; fails 404])
           (TransportError {| transport.StatusCode := 500;
                              transport.message := "registry error" |})
           [fails 404]).
  - reflexivity.
  - right. eexists. split; reflexivity.
Defined.

(** Behind an eligible mirror the first request is the HEAD for
    [library/busybox] under the mirror's registry. *)
Lemma Execute_mirror_gate_witness :
  exists l,
    trace (snd (Execute mirrored "" (start [answers "aaaa"])))
    = ([NewRepository_call "busybox" [name.WeakValidation]] ++ l)%list
    /\ mirrorAttempted l = true
    /\ exists l',
         l = NewRepository_call "index.docker.io/library/busybox" []
             :: NewRegistry_call "mirror.example.com" [name.WeakValidation]
             :: Head_call (name.TagRef (latest mirrorRepository)) mirrorOpts
             :: l'.
Proof.
  destruct (Execute_mirror_gate mirrored "" (start [answers "aaaa"])
              {| net := [answers "aaaa"];
                 trace := [NewRepository_call "busybox" [name.WeakValidation]] |}
              (exampleSource "busybox" (Some exampleMirror) "") None busybox
              eq_refl)
    as [l [E [[_ Hatt] [_ Hbuilt]]]].
  assert (Hel : mirrorEligible (exampleSource "busybox" (Some exampleMirror) "")
                               busybox).
  { split; [discriminate | reflexivity]. }
  exists l. split; [exact E | ]. split; [apply Hatt; exact Hel | ].
  exact (Hbuilt exampleMirror libraryBusybox
           {| name.registry := "mirror.example.com"; name.insecure := false |}
           eq_refl Hel eq_refl eq_refl).
Defined.

(** The mirror answers 404 for [library/busybox], the origin has the tag
    at [sha256:aaaa]. *)
Lemma Execute_mirror_failure_falls_through_witness :
  Execute mirrored "" (start [fails 404; answers "aaaa"])
  = (None,
     {| net := [];
        trace :=
          [NewRepository_call "busybox" [name.WeakValidation];
           NewRepository_call "index.docker.io/library/busybox" [];
           NewRegistry_call "mirror.example.com" [name.WeakValidation];
           Head_call (name.TagRef (latest mirrorRepository)) mirrorOpts;
           Warnf_call "checking mirror mirror.example.com failed: tag not found";
           Head_call (name.TagRef (latest busybox)) exampleOpts;
           Encode_call [{| resource.Digest := "sha256:aaaa" |}]] |}).
Proof.
  exact (Execute_mirror_failure_falls_through mirrored ""
           (start [fails 404; answers "aaaa"])
           {| net := [fails 404; answers "aaaa"];
              trace := [NewRepository_call "busybox" [name.WeakValidation]] |}
           {| net := [answers "aaaa"];
              trace :=
                [NewRepository_call "busybox" [name.WeakValidation];
                 NewRepository_call "index.docker.io/library/busybox" [];
                 NewRegistry_call "mirror.example.com" [name.WeakValidation];
                 Head_call (name.TagRef (latest mirrorRepository)) mirrorOpts] |}
           (exampleSource "busybox" (Some exampleMirror) "") None busybox
           exampleMirror libraryBusybox
           {| name.registry := "mirror.example.com"; name.insecure := false |}
           [] None
           eq_refl eq_refl eq_refl eq_refl eq_refl eq_refl
           (or_intror eq_refl)).
Defined.

(** The mirror has [library/busybox] at [sha256:aaaa]: nothing is asked
    of the origin. *)
Lemma Execute_mirror_success_skips_origin_witness :
  trace (snd (Execute mirrored "" (start [answers "aaaa"; answers "cccc"])))
  = [NewRepository_call "busybox" [name.WeakValidation];
     NewRepository_call "index.docker.io/library/busybox" [];
     NewRegistry_call "mirror.example.com" [name.WeakValidation];
     Head_call (name.TagRef (latest mirrorRepository)) mirrorOpts;
     Encode_call [{| resource.Digest := "sha256:aaaa" |}]].
Proof.
  apply (Execute_mirror_success_skips_origin mirrored ""
           (start [answers "aaaa"; answers "cccc"])
           {| net := [answers "aaaa"; answers "cccc"];
              trace := [NewRepository_call "busybox" [name.WeakValidation]] |}
           {| net := [answers "cccc"];
              trace :=
                [NewRepository_call "busybox" [name.WeakValidation];
                 NewRepository_call "index.docker.io/library/busybox" [];
                 NewRegistry_call "mirror.example.com" [name.WeakValidation];
                 Head_call (name.TagRef (latest mirrorRepository)) mirrorOpts] |}
           (exampleSource "busybox" (Some exampleMirror) "") None busybox
           exampleMirror libraryBusybox
           {| name.registry := "mirror.example.com"; name.insecure := false |}
           [{| resource.Digest := "sha256:aaaa" |}]).
  - reflexivity.
  - reflexivity.
  - reflexivity.
  - reflexivity.
  - reflexivity.
  - reflexivity.
  - discriminate.
Defined.

(** The triple is there and the exchange is refused. *)
Lemma Execute_token_exchange_witness :
  Execute hubAwsDenied "" (start [answers "aaaa"])
  = (Some (errorString "cannot authenticate with ECR"),
     {| net := [answers "aaaa"];
        trace := [AuthenticateToECR_call (exampleSource "busybox" None "AKIA")] |}).
Proof.
  refine (proj2 (Execute_token_exchange hubAwsDenied "" (start [answers "aaaa"])
                   (firstRun (exampleSource "busybox" None "AKIA")) eq_refl)
                _ _ _ eq_refl).
  repeat split; discriminate.
Defined.

(** Behind the mirror, whose descriptor has the pair [m]/[secret], for a
    Source without credentials: the mirror answers 404 and the origin has
    the tag. *)
Lemma Execute_static_credentials_witness :
  exists lm lo,
    trace (snd (Execute mirrored "" (start [fails 404; answers "aaaa"])))
    = (NewRepository_call "busybox" [name.WeakValidation] :: lm ++ lo)%list
    /\ Forall (mirrorRequest mirrored
                 (exampleSource "busybox" (Some exampleMirror) "")) lm
    /\ Forall (originRequest mirrored
                 (exampleSource "busybox" (Some exampleMirror) "")) lo.
Proof.
  exact (Execute_static_credentials mirrored "" (start [fails 404; answers "aaaa"])
           (firstRun (exampleSource "busybox" (Some exampleMirror) ""))
           eq_refl eq_refl).
Defined.

(** C9, as the specification states it, fails: with the username [user]
    and no password the HEAD for [busybox:latest] is sent without
    credentials. *)
Lemma username_without_password_not_sent :
  ~ static_credentials_used_as_is hubUserOnly "" (start [answers "aaaa"]).
Proof.
  intro H.
  specialize (H (firstRun userOnlySource) eq_refl eq_refl eq_refl).
  cbn in H. inversion H as [ | e l _ H2]; subst.
  inversion H2 as [ | e' l' Hhead _]; subst.
  specialize (Hhead _ eq_refl). discriminate Hhead.
Qed.

(** ** Further properties of the manifest resolver *)

Section ResolverProperties.
Context {Net : Type} (env : Env Net).

Lemma headOrGet_sends (w : World Net) ref opts :
  exists l,
    trace (snd (headOrGet env ref opts w)) = (trace w ++ l)%list
    /\ (l = [Head_call ref opts]
        \/ l = [Head_call ref opts; Get_call ref opts]).
Proof.
  destruct (remote_Head env ref opts (net w)) as [[desc | err] n] eqn:H.
  - rewrite (headOrGet_head_found env w ref opts desc n H).
    eexists; split; [reflexivity | left; reflexivity].
  - destruct (checkMissingManifest err) eqn:Hm.
    + rewrite (headOrGet_head_missing env w ref opts err n H Hm).
      eexists; split; [reflexivity | left; reflexivity].
    + rewrite (headOrGet_get env w ref opts err n H Hm).
      eexists; split; [reflexivity | right; reflexivity].
Qed.

(** [headOrGet] sends the HEAD, and at most the GET after it, both for its
    reference and with its options. *)
Theorem headOrGet_requests (w : World Net) ref opts :
  exists l,
    trace (snd (headOrGet env ref opts w)) = (trace w ++ l)%list
    /\ (l = [Head_call ref opts]
        \/ l = [Head_call ref opts; Get_call ref opts]).
Proof.
  exact (headOrGet_sends w ref opts).
Qed.

(** What [headOrGet] returns: without found the hash is the zero hash, and
    an error never comes with found. *)
Theorem headOrGet_result_invariant (w : World Net) ref opts :
  let '(d, found, err) := fst (headOrGet env ref opts w) in
  (found = false -> d = v1.Hash_zero) /\ (err <> None -> found = false).
Proof.
  destruct (remote_Head env ref opts (net w)) as [[desc | err] n] eqn:H.
  - rewrite (headOrGet_head_found env w ref opts desc n H). cbn.
    split; [discriminate | intro C; contradiction C; reflexivity].
  - destruct (checkMissingManifest err) eqn:Hm.
    + rewrite (headOrGet_head_missing env w ref opts err n H Hm). cbn.
      split; reflexivity.
    + rewrite (headOrGet_get env w ref opts err n H Hm). cbn.
      destruct (fst (remote_Get env ref opts n)) as [desc | err'].
      * split; [discriminate | intro C; contradiction C; reflexivity].
      * destruct (checkMissingManifest err'); split; reflexivity.
Qed.

(** A HEAD that fails otherwise than with not-found is forgotten when the
    GET answers: the digest is the one of the GET, found is true and the
    error nil. *)
Theorem headOrGet_get_answers (w : World Net) ref opts err n remoteDesc n' :
  remote_Head env ref opts (net w) = (inr err, n) ->
  checkMissingManifest err = false ->
  remote_Get env ref opts n = (inl remoteDesc, n') ->
  headOrGet env ref opts w
  = ((v1.Digest remoteDesc, true, None),
     {| net := n';
        trace := (trace w ++ [Head_call ref opts; Get_call ref opts])%list |}).
Proof.
  intros H Hm Hget.
  rewrite (headOrGet_get env w ref opts err n H Hm), Hget. reflexivity.
Qed.

Lemma headOrGet_error_inv (w : World Net) ref opts e :
  snd (fst (headOrGet env ref opts w)) = Some e ->
  exists err n,
    remote_Head env ref opts (net w) = (inr err, n)
    /\ checkMissingManifest err = false
    /\ fst (remote_Get env ref opts n) = inr e
    /\ checkMissingManifest e = false.
Proof.
  destruct (remote_Head env ref opts (net w)) as [[desc | err] n] eqn:H.
  - rewrite (headOrGet_head_found env w ref opts desc n H). discriminate.
  - destruct (checkMissingManifest err) eqn:Hm.
    + rewrite (headOrGet_head_missing env w ref opts err n H Hm). discriminate.
    + rewrite (headOrGet_get env w ref opts err n H Hm). cbn.
      destruct (fst (remote_Get env ref opts n)) as [desc | err'] eqn:Hget;
        [discriminate | ].
      destruct (checkMissingManifest err') eqn:Hm'; [discriminate | ].
      cbn. intro E. injection E as <-.
      exists err, n. repeat split; assumption.
Qed.

(** [headOrGet] returns the error [e] exactly when the HEAD failed
    otherwise than with not-found and the GET failed with [e], itself not a
    not-found: the error reported is the one of the GET. *)
Theorem headOrGet_error_iff (w : World Net) ref opts e :
  snd (fst (headOrGet env ref opts w)) = Some e
  <-> exists err n,
        remote_Head env ref opts (net w) = (inr err, n)
        /\ checkMissingManifest err = false
        /\ fst (remote_Get env ref opts n) = inr e
        /\ checkMissingManifest e = false.
Proof.
  split; [apply headOrGet_error_inv | ].
  intros [err [n [H [Hm [Hget Hm']]]]].
  rewrite (headOrGet_get env w ref opts err n H Hm), Hget, Hm'. reflexivity.
Qed.

End ResolverProperties.

Lemma headOrGet_get_answers_witness :
  headOrGet hub (name.TagRef (latest busybox)) exampleOpts
    (start [fails 500; answers "aaaa"])
  = ((sha "aaaa", true, None),
     {| net := [];
        trace := [Head_call (name.TagRef (latest busybox)) exampleOpts;
                  Get_call (name.TagRef (latest busybox)) exampleOpts] |}).
Proof.
  apply (headOrGet_get_answers hub (start [fails 500; answers "aaaa"])
           (name.TagRef (latest busybox)) exampleOpts serverError
           [answers "aaaa"] {| v1.Digest := sha "aaaa" |} []);
    reflexivity.
Defined.

(** ** Further properties of [performCheck] *)

Section PerformCheckProperties.
Context {Net : Type} (env : Env Net).

(** The response of [performCheck] is empty, or the current digest, or the
    previous version followed by a current digest that differs from it. *)
Theorem performCheck_response_shape principal version ref (w : World Net) :
  let response := fst (fst (performCheck env principal version ref w)) in
  response = []
  \/ (exists D, response = [{| resource.Digest := v1.Hash_String D |}])
  \/ (exists v D,
        version = Some v
        /\ resource.Digest v <> v1.Hash_String D
        /\ response = [v; {| resource.Digest := v1.Hash_String D |}]).
Proof.
  unfold performCheck, bind, ret. cbv zeta.
  destruct (headOrGet env _ _ w) as [[[digest found] [err | ]] w1];
    [left; reflexivity | ].
  destruct version as [v | ].
  - destruct found; cbn.
    + destruct (String.eqb (resource.Digest v) (v1.Hash_String digest)) eqn:Heq;
        cbn.
      * right; left. exists digest. reflexivity.
      * apply String.eqb_neq in Heq.
        destruct (headOrGet env _ _ w1) as [[[d' found'] [err' | ]] w2]; cbn;
          [left; reflexivity | ].
        destruct found'; cbn.
        -- right; right. exists v, digest. repeat split; [exact Heq].
        -- right; left. exists digest. reflexivity.
    + left. reflexivity.
  - destruct found; cbn; [right; left; exists digest | left]; reflexivity.
Qed.

(** The tag resolves to [D], the previous version has another digest, and
    the registry no longer has it: the response is the current digest
    alone. *)
Theorem performCheck_previous_gone principal v ref (w w1 w2 : World Net) D d' :
  headOrGet env (name.TagRef ref) (imageOptsOf env principal) w
  = ((D, true, None), w1) ->
  resource.Digest v <> v1.Hash_String D ->
  headOrGet env
    (name.DigestRef (name.Repository_Digest (name.Tag_Repository ref)
                                            (resource.Digest v)))
    (imageOptsOf env principal) w1
  = ((d', false, None), w2) ->
  performCheck env principal (Some v) ref w
  = (([{| resource.Digest := v1.Hash_String D |}], None), w2).
Proof.
  intros Htag Hneq Hprev.
  apply String.eqb_neq in Hneq.
  unfold performCheck, bind, ret.
  rewrite Htag. cbn. rewrite Hneq. cbn. rewrite Hprev. reflexivity.
Qed.

(** The tag resolves, the previous version has another digest, and the
    request for it fails: [performCheck] fails with that error wrapped, and
    its response is empty, the current digest withheld. *)
Theorem performCheck_previous_error principal v ref (w w1 w2 : World Net)
    D d' found' e :
  headOrGet env (name.TagRef ref) (imageOptsOf env principal) w
  = ((D, true, None), w1) ->
  resource.Digest v <> v1.Hash_String D ->
  headOrGet env
    (name.DigestRef (name.Repository_Digest (name.Tag_Repository ref)
                                            (resource.Digest v)))
    (imageOptsOf env principal) w1
  = ((d', found', Some e), w2) ->
  performCheck env principal (Some v) ref w
  = (([], Some (wrapError ("get remote image: " ++ error_Error e) e)), w2).
Proof.
  intros Htag Hneq Hprev.
  apply String.eqb_neq in Hneq.
  unfold performCheck, bind, ret.
  rewrite Htag. cbn. rewrite Hneq. cbn. rewrite Hprev. reflexivity.
Qed.

(** An error of [performCheck] is always the wrapper, with the prefix
    [get remote image: ], of an error that is not a not-found; it comes
    with an empty response, and [checkMissingManifest] does not take the
    wrapper for a not-found. *)
Theorem performCheck_error_shape principal version ref (w : World Net) e :
  snd (fst (performCheck env principal version ref w)) = Some e ->
  fst (fst (performCheck env principal version ref w)) = []
  /\ checkMissingManifest e = false
  /\ exists inner,
       e = wrapError ("get remote image: " ++ error_Error inner) inner
       /\ checkMissingManifest inner = false.
Proof.
  unfold performCheck, bind, ret. cbv zeta.
  pose proof (headOrGet_error_inv env w (name.TagRef ref)
                (imageOptsOf env principal)) as Htag.
  destruct (headOrGet env _ _ w) as [[[digest found] [err | ]] w1]; cbn.
  - intro E. injection E as <-.
    split; [reflexivity | ]. split; [reflexivity | ].
    exists err. split; [reflexivity | ].
    destruct (Htag err eq_refl) as [_ [_ [_ [_ [_ Hm]]]]]. exact Hm.
  - destruct version as [v | ]; [ | cbn; discriminate].
    destruct (found && _); [ | cbn; discriminate].
    match goal with
    | |- context [headOrGet env ?r ?o w1] =>
        pose proof (headOrGet_error_inv env w1 r o) as Hprev;
        destruct (headOrGet env r o w1) as [[[d' found'] [err' | ]] w2]
    end; cbn; [ | discriminate].
    intro E. injection E as <-.
    split; [reflexivity | ]. split; [reflexivity | ].
    exists err'. split; [reflexivity | ].
    destruct (Hprev err' eq_refl) as [_ [_ [_ [_ [_ Hm]]]]]. exact Hm.
Qed.

Lemma countRequests_app l1 l2 :
  countRequests (l1 ++ l2) = countRequests l1 + countRequests l2.
Proof.
  unfold countRequests. rewrite filter_app, length_app. reflexivity.
Qed.

Lemma requestsAtMost_ret {A : Type} (a : A) n :
  requestsAtMost (@ret Net A a) n.
Proof.
  intro w. exists []. split; [symmetry; apply app_nil_r | cbn; lia].
Qed.

Lemma requestsAtMost_bind {A B : Type} (c : M Net A) (k : A -> M Net B) n m p :
  n + m <= p ->
  requestsAtMost c n -> (forall a, requestsAtMost (k a) m) ->
  requestsAtMost (bind c k) p.
Proof.
  intros Hp Hc Hk w. unfold bind.
  destruct (Hc w) as [l1 [E1 B1]].
  destruct (c w) as [a w1]. cbn in E1.
  destruct (Hk a w1) as [l2 [E2 B2]].
  exists (l1 ++ l2)%list. split.
  - rewrite E2, E1. symmetry. apply app_assoc.
  - rewrite countRequests_app. lia.
Qed.

Lemma requestsAtMost_quiet {A : Type} (c : M Net A) n :
  emits c (fun e => isRequest e = false) -> requestsAtMost c n.
Proof.
  intros Hc w. destruct (Hc w) as [l [E F]]. exists l. split; [exact E | ].
  assert (H0 : countRequests l = 0).
  { clear E. unfold countRequests.
    induction F as [ | e l He _ IH]; [reflexivity | ].
    cbn. rewrite He. exact IH. }
  lia.
Qed.

Lemma requestsAtMost_headOrGet ref opts :
  requestsAtMost (headOrGet env ref opts) 2.
Proof.
  intro w. destruct (headOrGet_sends env w ref opts) as [l [E [-> | ->]]];
    eexists; (split; [exact E | cbn; lia]).
Qed.

Lemma requestsAtMost_performCheck principal version ref :
  requestsAtMost (performCheck env principal version ref)
                 (match version with Some _ => 4 | None => 2 end).
Proof.
  unfold performCheck. cbv zeta.
  apply (requestsAtMost_bind _ _ 2 (match version with Some _ => 2 | None => 0 end));
    [destruct version; lia | apply requestsAtMost_headOrGet | ].
  intros [[digest found] [err | ]]; [apply requestsAtMost_ret | ].
  apply (requestsAtMost_bind _ _ (match version with Some _ => 2 | None => 0 end) 0);
    [destruct version; lia | | intros [response | e]; apply requestsAtMost_ret].
  destruct version as [v | ]; [ | apply requestsAtMost_ret].
  destruct (found && _); [ | apply requestsAtMost_ret].
  apply (requestsAtMost_bind _ _ 2 0); [lia | apply requestsAtMost_headOrGet | ].
  intros [[d' found'] [err' | ]]; apply requestsAtMost_ret.
Qed.

(** [performCheck] sends at most four registry requests, and at most two
    when there is no previous version. *)
Theorem performCheck_request_bound principal version ref (w : World Net) :
  exists l,
    trace (snd (performCheck env principal version ref w)) = (trace w ++ l)%list
    /\ countRequests l <= 4
    /\ (version = None -> countRequests l <= 2).
Proof.
  destruct (requestsAtMost_performCheck principal version ref w) as [l [E B]].
  exists l. split; [exact E | ]. split.
  - destruct version; lia.
  - intros ->. exact B.
Qed.

End PerformCheckProperties.

Lemma previous_is_not_current :
  resource.Digest previous <> v1.Hash_String (sha "aaaa").
Proof.
  intro H. discriminate H.
Defined.

Lemma performCheck_previous_gone_witness :
  performCheck hub anonymous (Some previous) (latest busybox)
    (start [answers "aaaa"; fails 404])
  = (([{| resource.Digest := "sha256:aaaa" |}], None),
     {| net := [];
        trace :=
          [Head_call (name.TagRef (latest busybox)) exampleOpts;
           Head_call (name.DigestRef (name.Repository_Digest busybox "sha256:bbbb"))
                     exampleOpts] |}).
Proof.
  apply (performCheck_previous_gone hub anonymous previous (latest busybox)
           (start [answers "aaaa"; fails 404])
           {| net := [fails 404];
              trace := [Head_call (name.TagRef (latest busybox)) exampleOpts] |}
           _ (sha "aaaa") v1.Hash_zero).
  - reflexivity.
  - intro H. discriminate H.
  - reflexivity.
Defined.

Lemma performCheck_previous_error_witness :
  fst (performCheck hub anonymous (Some previous) (latest busybox)
         (start [answers "aaaa"; fails 500; fails 500]))
  = ([], Some (wrapError "get remote image: registry error" serverError)).
Proof.
  apply (f_equal fst
           (performCheck_previous_error hub anonymous previous (latest busybox)
              (start [answers "aaaa"; fails 500; fails 500])
              {| net := [fails 500; fails 500];
                 trace := [Head_call (name.TagRef (latest busybox)) exampleOpts] |}
              {| net := [];
                 trace :=
                   [Head_call (name.TagRef (latest busybox)) exampleOpts;
                    Head_call (name.DigestRef
                                 (name.Repository_Digest busybox "sha256:bbbb"))
                              exampleOpts;
                    Get_call (name.DigestRef
                                (name.Repository_Digest busybox "sha256:bbbb"))
                             exampleOpts] |}
              (sha "aaaa") v1.Hash_zero false serverError
              eq_refl previous_is_not_current
              eq_refl)).
Defined.

Lemma performCheck_error_shape_witness :
  fst (fst (performCheck hub anonymous None (latest busybox)
              (start [fails 500; fails 500])))
  = []
  /\ checkMissingManifest (wrapError "get remote image: registry error" serverError)
     = false
  /\ exists inner,
       wrapError "get remote image: registry error" serverError
       = wrapError ("get remote image: " ++ error_Error inner) inner
       /\ checkMissingManifest inner = false.
Proof.
  exact (performCheck_error_shape hub anonymous None (latest busybox)
           (start [fails 500; fails 500])
           (wrapError "get remote image: registry error" serverError) eq_refl).
Defined.

(** ** Further properties of [Execute] *)

Section ExecuteProperties.
Context {Net : Type} (env : Env Net).

Lemma emits_Execute_prelude stdin (P : Event -> Prop) :
  (forall src, P (AuthenticateToECR_call src)) ->
  (forall s opts, P (NewRepository_call s opts)) ->
  emits (Execute_prelude env stdin) P.
Proof.
  intros Hecr Hrepo. unfold Execute_prelude.
  destruct (json_Decode env stdin) as [req | err]; [ | apply emits_ret].
  apply emits_bind.
  - destruct (hasAwsTriple (Source req)); [ | apply emits_ret].
    apply emits_bind; [apply emits_call; apply Hecr | ].
    intros [ok src]. apply emits_ret.
  - intros [src | e]; [ | apply emits_ret].
    apply emits_bind; [apply emits_pure_call; apply Hrepo | ].
    intros [repo | err]; apply emits_ret.
Qed.

Lemma emits_performCheck_requests principal version ref (P : Event -> Prop) :
  (forall e, isRequest e = true -> P e) ->
  emits (performCheck env principal version ref) P.
Proof.
  intro Hreq. eapply emits_weaken; [ | apply emits_performCheck].
  intros e [Ho _]. apply Hreq. destruct e; try discriminate Ho; reflexivity.
Qed.

Lemma emits_Execute_mirror_alphabet src version repo m (P : Event -> Prop) :
  (forall s opts, P (NewRepository_call s opts)) ->
  (forall s opts, P (NewRegistry_call s opts)) ->
  (forall e, isRequest e = true -> P e) ->
  (forall msg, P (Warnf_call msg)) ->
  emits (Execute_mirror env src version repo m) P.
Proof.
  intros Hrepo Hreg Hreq Hwarn. unfold Execute_mirror.
  apply emits_bind; [apply emits_pure_call; apply Hrepo | ].
  intros [mirror | err]; [ | apply emits_ret].
  apply emits_bind; [apply emits_pure_call; apply Hreg | ].
  intros [reg | err]; [ | apply emits_ret].
  cbv zeta. apply emits_bind; [apply emits_performCheck_requests; exact Hreq | ].
  intros [response err]. apply emits_bind; [ | intro; apply emits_ret].
  destruct err as [err | ]; [apply emits_emit; apply Hwarn | ].
  destruct (Nat.eqb (length response) 0);
    [apply emits_emit; apply Hwarn | apply emits_ret].
Qed.

(** A payload that does not decode ends the check at once: no call is
    made and the outside world is as it was. *)
Theorem Execute_invalid_payload stdin (w : World Net) err :
  json_Decode env stdin = inr err ->
  Execute env stdin w
  = (Some (errorString ("invalid payload: " ++ error_Error err)), w).
Proof.
  intro H. unfold Execute, Execute_prelude, bind. rewrite H. reflexivity.
Qed.

(** A repository that does not parse ends the check with no registry
    request: the parser call is the only call. *)
Theorem Execute_repository_unparsable stdin (w : World Net) req err :
  json_Decode env stdin = inl req ->
  hasAwsTriple (Source req) = false ->
  name_NewRepository env (resource.Repository (Source req)) [name.WeakValidation]
  = inr err ->
  Execute env stdin w
  = (Some (errorString ("failed to resolve repository: " ++ error_Error err)),
     logged w [NewRepository_call (resource.Repository (Source req))
                                  [name.WeakValidation]]).
Proof.
  intros Hdec Htriple Hrepo.
  unfold Execute, Execute_prelude. rewrite Hdec, Htriple.
  unfold bind, pure_call, ret. cbn. rewrite Hrepo. reflexivity.
Qed.

(** An eligible mirror whose host does not parse as a registry ends the
    check with an error: no registry request is sent, and the origin is not
    tried. *)
Theorem Execute_mirror_registry_unparsable stdin (w0 w1 : World Net)
    src version repo m mirror err :
  Execute_prelude env stdin w0 = (inl (src, version, repo), w1) ->
  resource.Source_RegistryMirror src = Some m ->
  name.Registry_String (name.Repository_Registry repo) = name.DefaultRegistry ->
  name_NewRepository env (name.Repository_String repo) [] = inl mirror ->
  name_NewRegistry env (resource.Host m) [name.WeakValidation] = inr err ->
  Execute env stdin w0
  = (Some (errorString ("could not resolve registry: " ++ error_Error err)),
     logged w1 [NewRepository_call (name.Repository_String repo) [];
                NewRegistry_call (resource.Host m) [name.WeakValidation]]).
Proof.
  intros Hpre Hm Heq Hrepo Hreg.
  rewrite (Execute_after_prelude env stdin w0 w1 src version repo Hpre).
  apply String.eqb_eq in Heq.
  unfold Execute_resolve. cbv zeta. rewrite Hm, Heq.
  unfold Execute_mirror, bind, pure_call, ret. rewrite Hrepo. cbn.
  rewrite Hreg. cbn. unfold logged. rewrite <- app_assoc. reflexivity.
Qed.

(** An eligible mirror for which the name of the origin repository, its
    namespace written out, does not parse at line 75 ends the check with an
    error: no registry request is sent, and the origin is not tried. *)
Theorem Execute_mirror_repository_unparsable stdin (w0 w1 : World Net)
    src version repo m err :
  Execute_prelude env stdin w0 = (inl (src, version, repo), w1) ->
  resource.Source_RegistryMirror src = Some m ->
  name.Registry_String (name.Repository_Registry repo) = name.DefaultRegistry ->
  name_NewRepository env (name.Repository_String repo) [] = inr err ->
  Execute env stdin w0
  = (Some (errorString
             ("could not resolve mirror repository: " ++ error_Error err)),
     logged w1 [NewRepository_call (name.Repository_String repo) []]).
Proof.
  intros Hpre Hm Heq Hrepo.
  rewrite (Execute_after_prelude env stdin w0 w1 src version repo Hpre).
  apply String.eqb_eq in Heq.
  unfold Execute_resolve. cbv zeta. rewrite Hm, Heq.
  unfold Execute_mirror, bind, pure_call, ret. rewrite Hrepo. reflexivity.
Qed.


Lemma writesLast_ret_error e : writesLast (@ret Net _ (Some e)).
Proof.
  intro w. exists []. split; [symmetry; apply app_nil_r | ].
  left. split; [constructor | discriminate].
Qed.

Lemma writesLast_encode response : writesLast (Execute_encode env response).
Proof.
  intro w. exists [Encode_call response]. split.
  - unfold Execute_encode, bind, call.
    destruct (json_Encode env response (net w)) as [[e | ] n]; reflexivity.
  - right. exists [], response. split; [reflexivity | constructor].
Qed.

Lemma writesLast_bind {A : Type} (c : M Net A) (k : A -> M Net (option error)) :
  emits c (fun e => isEncode e = false) ->
  (forall a, writesLast (k a)) ->
  writesLast (bind c k).
Proof.
  intros Hc Hk w. unfold bind.
  destruct (Hc w) as [l1 [E1 F1]].
  destruct (c w) as [a w1]. cbn in E1.
  destruct (Hk a w1) as [l2 [E2 [[F2 Hres] | [l' [response [-> F2]]]]]].
  - exists (l1 ++ l2)%list. split.
    + rewrite E2, E1. symmetry. apply app_assoc.
    + left. split; [apply Forall_app; split; assumption | exact Hres].
  - exists (l1 ++ l' ++ [Encode_call response])%list. split.
    + rewrite E2, E1. symmetry. apply app_assoc.
    + right. exists (l1 ++ l')%list, response.
      split; [apply app_assoc | apply Forall_app; split; assumption].
Qed.

(** Whatever a check does, it writes a response at most once and as its
    last call; a check that writes none has failed. *)
Theorem Execute_writes_last stdin (w : World Net) :
  exists l,
    trace (snd (Execute env stdin w)) = (trace w ++ l)%list
    /\ writtenLast (fst (Execute env stdin w)) l.
Proof.
  revert w. change (writesLast (Execute env stdin)).
  unfold Execute. apply writesLast_bind.
  - apply emits_Execute_prelude; reflexivity.
  - intros [[[src version] repo] | e]; [ | apply writesLast_ret_error].
    unfold Execute_resolve. cbv zeta. apply writesLast_bind.
    + destruct (resource.Source_RegistryMirror src) as [m | ];
        [ | apply emits_ret].
      destruct (String.eqb _ _); [ | apply emits_ret].
      apply emits_Execute_mirror_alphabet; try reflexivity.
      intros e He. destruct e; try discriminate He; reflexivity.
    + intros [[response tag] | e]; [ | apply writesLast_ret_error].
      unfold Execute_origin. apply writesLast_bind.
      * destruct (Nat.eqb (length response) 0); [ | apply emits_ret].
        apply emits_bind.
        -- apply emits_performCheck_requests.
           intros e He. destruct e; try discriminate He; reflexivity.
        -- intros [response' err]. apply emits_ret.
      * intros [[response' tag'] [err | ]];
          [apply writesLast_ret_error | apply writesLast_encode].
Qed.

Lemma requestsAtMost_le {A : Type} (c : M Net A) n m :
  n <= m -> requestsAtMost c n -> requestsAtMost c m.
Proof.
  intros Hle Hc w. destruct (Hc w) as [l [E B]].
  exists l. split; [exact E | lia].
Qed.

Lemma requestsAtMost_bind_post {A B : Type} (c : M Net A) (k : A -> M Net B)
    (Q : A -> Prop) n m p :
  n + m <= p ->
  requestsAtMost c n ->
  (forall w, Q (fst (c w))) ->
  (forall a, Q a -> requestsAtMost (k a) m) ->
  requestsAtMost (bind c k) p.
Proof.
  intros Hp Hc HQ Hk w. unfold bind.
  destruct (Hc w) as [l1 [E1 B1]]. specialize (HQ w).
  destruct (c w) as [a w1]. cbn in E1, HQ.
  destruct (Hk a HQ w1) as [l2 [E2 B2]].
  exists (l1 ++ l2)%list. split.
  - rewrite E2, E1. symmetry. apply app_assoc.
  - rewrite countRequests_app. lia.
Qed.

Lemma requestsAtMost_Execute_mirror src version repo m :
  requestsAtMost (Execute_mirror env src version repo m)
                 (match version with Some _ => 4 | None => 2 end).
Proof.
  unfold Execute_mirror.
  apply (requestsAtMost_bind _ _ 0 (match version with Some _ => 4 | None => 2 end));
    [lia | apply requestsAtMost_quiet; apply emits_pure_call; reflexivity | ].
  intros [mirror | err]; [ | apply requestsAtMost_ret].
  apply (requestsAtMost_bind _ _ 0 (match version with Some _ => 4 | None => 2 end));
    [lia | apply requestsAtMost_quiet; apply emits_pure_call; reflexivity | ].
  intros [reg | err]; [ | apply requestsAtMost_ret].
  cbv zeta.
  apply (requestsAtMost_bind _ _ (match version with Some _ => 4 | None => 2 end) 0);
    [lia | apply requestsAtMost_performCheck | ].
  intros [response err].
  apply (requestsAtMost_bind _ _ 0 0); [lia | | intro; apply requestsAtMost_ret].
  apply requestsAtMost_quiet.
  destruct err as [err | ]; [apply emits_emit; reflexivity | ].
  destruct (Nat.eqb (length response) 0);
    [apply emits_emit; reflexivity | apply emits_ret].
Qed.

Lemma requestsAtMost_Execute_origin src version repo response tag :
  requestsAtMost (Execute_origin env src version repo response tag)
                 (match version with Some _ => 4 | None => 2 end).
Proof.
  unfold Execute_origin.
  apply (requestsAtMost_bind _ _ (match version with Some _ => 4 | None => 2 end) 0);
    [lia | | ].
  - destruct (Nat.eqb (length response) 0); [ | apply requestsAtMost_ret].
    apply (requestsAtMost_bind _ _ (match version with Some _ => 4 | None => 2 end) 0);
      [lia | apply requestsAtMost_performCheck | ].
    intros [response' err]. apply requestsAtMost_ret.
  - intros [[response' tag'] [err | ]]; [apply requestsAtMost_ret | ].
    apply requestsAtMost_quiet. apply emits_Execute_encode. reflexivity.
Qed.

Lemma requestsAtMost_Execute_resolve src version repo :
  requestsAtMost (Execute_resolve env src version repo)
                 (match version with Some _ => 8 | None => 4 end).
Proof.
  unfold Execute_resolve. cbv zeta.
  apply (requestsAtMost_bind _ _ (match version with Some _ => 4 | None => 2 end)
                                 (match version with Some _ => 4 | None => 2 end));
    [destruct version; lia | | ].
  - destruct (resource.Source_RegistryMirror src) as [m | ];
      [ | apply requestsAtMost_ret].
    destruct (String.eqb _ _); [ | apply requestsAtMost_ret].
    apply requestsAtMost_Execute_mirror.
  - intros [[response tag] | e];
      [apply requestsAtMost_Execute_origin | apply requestsAtMost_ret].
Qed.

(** The previous version with which the prelude goes on is the one of the
    decoded request. *)
Lemma Execute_prelude_version stdin req (w : World Net) :
  json_Decode env stdin = inl req ->
  match fst (Execute_prelude env stdin w) with
  | inl (_, version, _) => version = Version req
  | inr _ => True
  end.
Proof.
  intro Hdec. unfold Execute_prelude. rewrite Hdec.
  unfold bind, call, pure_call, ret.
  destruct (hasAwsTriple (Source req)).
  - destruct (AuthenticateToECR env (Source req) (net w)) as [[ok src'] n'].
    destruct ok; cbn; [ | exact I].
    destruct (name_NewRepository env _ _); cbn; [reflexivity | exact I].
  - cbn. destruct (name_NewRepository env _ _); cbn; [reflexivity | exact I].
Qed.

(** A check sends at most eight registry requests, mirror and origin
    together, and at most four on a first run, when the request has no
    previous version. *)
Theorem Execute_request_bound stdin (w : World Net) :
  exists l,
    trace (snd (Execute env stdin w)) = (trace w ++ l)%list
    /\ countRequests l <= 8
    /\ (forall req,
          json_Decode env stdin = inl req -> Version req = None ->
          countRequests l <= 4).
Proof.
  assert (Hall : requestsAtMost (Execute env stdin) 8).
  { unfold Execute. apply (requestsAtMost_bind _ _ 0 8); [lia | | ].
    - apply requestsAtMost_quiet. apply emits_Execute_prelude; reflexivity.
    - intros [[[src version] repo] | e]; [ | apply requestsAtMost_ret].
      eapply requestsAtMost_le; [ | apply requestsAtMost_Execute_resolve].
      destruct version; lia. }
  destruct (Hall w) as [l [E B]].
  exists l. split; [exact E | ]. split; [exact B | ].
  intros req Hdec Hfirst.
  assert (Hfour : requestsAtMost (Execute env stdin) 4).
  { unfold Execute.
    apply (requestsAtMost_bind_post _ _
             (fun p => match p with
                       | inl (_, version, _) => version = None
                       | inr _ => True
                       end) 0 4); [lia | | | ].
    - apply requestsAtMost_quiet. apply emits_Execute_prelude; reflexivity.
    - intro w'. pose proof (Execute_prelude_version stdin req w' Hdec) as H.
      destruct (fst (Execute_prelude env stdin w')) as [[[src version] repo] | e];
        [rewrite H; exact Hfirst | exact I].
    - intros [[[src version] repo] | e] HQ; [ | apply requestsAtMost_ret].
      subst version.
      apply (requestsAtMost_Execute_resolve src None repo). }
  destruct (Hfour w) as [l' [E' B']].
  rewrite E in E'. apply app_inv_head in E'. subst l'. exact B'.
Qed.

Lemma imageOptsOf_platform principal :
  carriesPlatform env (imageOptsOf env principal).
Proof.
  unfold carriesPlatform, imageOptsOf. cbn.
  destruct (nonEmpty (resource.Username principal)
            && nonEmpty (resource.Password principal));
    eexists; reflexivity.
Qed.

(** Every registry request of a check, to the mirror or to the origin, for
    a tag or for a digest, carries the platform of the host as its first
    option. *)
Theorem Execute_requests_carry_platform stdin (w : World Net) :
  exists l,
    trace (snd (Execute env stdin w)) = (trace w ++ l)%list
    /\ Forall (fun e =>
                 forall opts,
                   requestOpts e = Some opts -> carriesPlatform env opts)
              l.
Proof.
  revert w.
  change (emits (Execute env stdin)
            (fun e => forall opts,
                 requestOpts e = Some opts -> carriesPlatform env opts)).
  unfold Execute. apply emits_bind.
  - apply emits_Execute_prelude; intros; discriminate.
  - intros [[[src version] repo] | e]; [ | apply emits_ret].
    eapply emits_weaken; [ | apply emits_Execute_resolve].
    intros e He opts Ho.
    destruct e; try discriminate Ho; cbn in *; injection Ho as ->;
      (destruct He as [[Ho _] | [_ [m [_ Ho]]]];
       rewrite Ho; apply imageOptsOf_platform).
Qed.


End ExecuteProperties.

Lemma Execute_invalid_payload_witness :
  Execute brokenPayload "{" (start [answers "aaaa"])
  = (Some (errorString "invalid payload: unexpected EOF"),
     start [answers "aaaa"]).
Proof.
  apply (Execute_invalid_payload brokenPayload "{" (start [answers "aaaa"])
           (errorString "unexpected EOF")).
  reflexivity.
Defined.

Lemma Execute_repository_unparsable_witness :
  Execute noRepository "" (start [answers "aaaa"])
  = (Some (errorString
             "failed to resolve repository: a repository name must be specified"),
     {| net := [answers "aaaa"];
        trace := [NewRepository_call "" [name.WeakValidation]] |}).
Proof.
  apply (Execute_repository_unparsable noRepository "" (start [answers "aaaa"])
           (firstRun (exampleSource "" None ""))
           (errorString "a repository name must be specified"));
    reflexivity.
Defined.

Lemma Execute_mirror_registry_unparsable_witness :
  Execute mirroredBadHost "" (start [answers "aaaa"])
  = (Some (errorString
             "could not resolve registry: registries must be valid RFC 3986 URI authorities: bad host"),
     {| net := [answers "aaaa"];
        trace := [NewRepository_call "busybox" [name.WeakValidation];
                  NewRepository_call "index.docker.io/library/busybox" [];
                  NewRegistry_call "bad host" [name.WeakValidation]] |}).
Proof.
  apply (Execute_mirror_registry_unparsable mirroredBadHost ""
           (start [answers "aaaa"])
           {| net := [answers "aaaa"];
              trace := [NewRepository_call "busybox" [name.WeakValidation]] |}
           (exampleSource "busybox" (Some badMirrorHost) "") None busybox
           badMirrorHost libraryBusybox
           (errorString
              "registries must be valid RFC 3986 URI authorities: bad host"));
    reflexivity.
Defined.

Lemma Execute_mirror_repository_unparsable_witness :
  Execute mirroredDotDot "" (start [answers "aaaa"])
  = (Some (errorString
             "could not resolve mirror repository: repository must be between 2 and 255 characters in length: ."),
     {| net := [answers "aaaa"];
        trace := [NewRepository_call ".." [name.WeakValidation];
                  NewRepository_call "index.docker.io/." []] |}).
Proof.
  apply (Execute_mirror_repository_unparsable mirroredDotDot ""
           (start [answers "aaaa"])
           {| net := [answers "aaaa"];
              trace := [NewRepository_call ".." [name.WeakValidation]] |}
           (exampleSource ".." (Some exampleMirror) "") None dotDot
           exampleMirror
           (errorString
              "repository must be between 2 and 255 characters in length: ."));
    reflexivity.
Defined.



(** The bound of eight is reached: on the mirror the HEADs fail, the tag
    is found by GET and the previous digest fails; on the origin the same
    happens and the previous digest is found. *)
Example Execute_eight_requests :
  countRequests
    (trace (snd (Execute mirroredSecondRun ""
                   (start [fails 500; answers "aaaa"; fails 500; fails 500;
                           fails 500; answers "aaaa"; fails 500; answers "bbbb"]))))
  = 8.
Proof.
  reflexivity.
Qed.

End commands.
